(** * Repository discovery and aggregation: getProjectinfo

    A shallow embedding of [getProjectinfo] (root search, directory
    hierarchy, configuration URL extraction and the snapshot aggregator)
    together with the properties of its specification. *)

From Stdlib Require Import String Ascii NArith Arith Bool Lia List.
Import ListNotations.

Set Warnings "-register-all,-abstract-large-number".

(* ===================================================================== *)
(** ** JavaScript strings *)
(* ===================================================================== *)

(** A JavaScript string is a sequence of UTF-16 code units. *)
Definition code_unit := N.
Definition jsstring := list code_unit.

(** String literals of the source, written [js "..."]. *)
Definition js (s : string) : jsstring :=
  map N_of_ascii (list_ascii_of_string s).

Fixpoint str_eqb (a b : jsstring) : bool :=
  match a, b with
  | [], [] => true
  | x :: a', y :: b' => N.eqb x y && str_eqb a' b'
  | _, _ => false
  end.

(** Truthiness of a string: only the empty string is falsy. *)
Definition truthy (s : jsstring) : bool :=
  match s with [] => false | _ :: _ => true end.

(** Truthiness of [string | null]. *)
Definition truthy_opt (o : option jsstring) : bool :=
  match o with None => false | Some s => truthy s end.

Open Scope N_scope.

(** ECMAScript LineTerminator: LF, CR, LS, PS. *)
Definition isLineTerminator (c : code_unit) : bool :=
  (c =? 10) || (c =? 13) || (c =? 8232) || (c =? 8233).

(** ECMAScript WhiteSpace: TAB, VT, FF, ZWNBSP and the space separators. *)
Definition isWhiteSpace (c : code_unit) : bool :=
  (c =? 9) || (c =? 11) || (c =? 12) || (c =? 32) || (c =? 160)
  || (c =? 5760) || ((8192 <=? c) && (c <=? 8202))
  || (c =? 8239) || (c =? 8287) || (c =? 12288) || (c =? 65279).

(** What [\s] matches and what [trim] strips: WhiteSpace or LineTerminator. *)
Definition isSpace (c : code_unit) : bool :=
  isWhiteSpace c || isLineTerminator c.

Close Scope N_scope.

Fixpoint dropWhile (p : code_unit -> bool) (s : jsstring) : jsstring :=
  match s with
  | [] => []
  | c :: s' => if p c then dropWhile p s' else s
  end.

Definition trimStart (s : jsstring) : jsstring := dropWhile isSpace s.
Definition trimEnd (s : jsstring) : jsstring := rev (dropWhile isSpace (rev s)).

(** [String.prototype.trim]. *)
Definition trim (s : jsstring) : jsstring := trimEnd (trimStart s).

(** [a.startsWith(p)], returning what follows the prefix. *)
Fixpoint stripPrefix (p s : jsstring) : option jsstring :=
  match p, s with
  | [], _ => Some s
  | x :: p', y :: s' => if N.eqb x y then stripPrefix p' s' else None
  | _ :: _, [] => None
  end.

(* ===================================================================== *)
(** ** The [path] module (POSIX flavour) *)
(* ===================================================================== *)

Module Path.

Definition slash : code_unit := 47%N.
Definition dot : jsstring := js ".".
Definition dotdot : jsstring := js "..".

(** [s.split("/")]: never empty, [split_slash "" = [""]]. *)
Fixpoint split_slash (s : jsstring) : list jsstring :=
  match s with
  | [] => [[]]
  | c :: s' =>
      if N.eqb c slash then [] :: split_slash s'
      else match split_slash s' with
           | [] => [[c]]
           | seg :: segs => (c :: seg) :: segs
           end
  end.

(** [segs.join("/")]. *)
Fixpoint join_slash (segs : list jsstring) : jsstring :=
  match segs with
  | [] => []
  | [seg] => seg
  | seg :: rest => seg ++ slash :: join_slash rest
  end.

(** The segment walk of [normalizeString]: empty and [.] segments are
    dropped, [..] removes the segment before it, or is kept when there
    is none to remove and the path may climb above its start.  [acc]
    holds the result so far, last segment first. *)
Fixpoint normalizeSegments (allowAboveRoot : bool) (segs acc : list jsstring)
  : list jsstring :=
  match segs with
  | [] => rev acc
  | seg :: rest =>
      if str_eqb seg [] || str_eqb seg dot then
        normalizeSegments allowAboveRoot rest acc
      else if str_eqb seg dotdot then
        match acc with
        | [] =>
            normalizeSegments allowAboveRoot rest
              (if allowAboveRoot then [dotdot] else [])
        | last :: acc' =>
            if str_eqb last dotdot then
              normalizeSegments allowAboveRoot rest
                (if allowAboveRoot then dotdot :: acc else acc)
            else normalizeSegments allowAboveRoot rest acc'
        end
      else normalizeSegments allowAboveRoot rest (seg :: acc)
  end.

Definition normalizeString (path : jsstring) (allowAboveRoot : bool) : jsstring :=
  join_slash (normalizeSegments allowAboveRoot (split_slash path) []).

Definition isAbsolute (path : jsstring) : bool :=
  match path with c :: _ => N.eqb c slash | [] => false end.

Definition normalize (path : jsstring) : jsstring :=
  match path with
  | [] => dot
  | _ :: _ =>
      let trailingSeparator := N.eqb (last path 0%N) slash in
      let p := normalizeString path (negb (isAbsolute path)) in
      match p with
      | [] =>
          if isAbsolute path then [slash]
          else if trailingSeparator then js "./" else dot
      | _ :: _ =>
          let p' := if trailingSeparator then p ++ [slash] else p in
          if isAbsolute path then slash :: p' else p'
      end
  end.

(** [join(...args)]: the non-empty arguments glued with [/], normalized. *)
Definition join (args : list jsstring) : jsstring :=
  match filter truthy args with
  | [] => dot
  | parts => normalize (join_slash parts)
  end.

(** The right-to-left loop of [resolve]: arguments are prepended until an
    absolute one has been seen. *)
Fixpoint resolveLoop (rev_args : list jsstring) (resolvedPath : jsstring)
  (resolvedAbsolute : bool) : jsstring * bool :=
  match rev_args with
  | [] => (resolvedPath, resolvedAbsolute)
  | path :: rest =>
      if resolvedAbsolute then (resolvedPath, resolvedAbsolute)
      else match path with
           | [] => resolveLoop rest resolvedPath resolvedAbsolute
           | _ :: _ =>
               resolveLoop rest (path ++ slash :: resolvedPath) (isAbsolute path)
           end
  end.

Section WithCwd.

(** The working directory of the process, what [process.cwd()] answers. *)
Variable cwd : jsstring.

Definition resolve (args : list jsstring) : jsstring :=
  let '(resolvedPath, resolvedAbsolute) :=
    resolveLoop (rev args ++ [cwd]) [] false in
  let p := normalizeString resolvedPath (negb resolvedAbsolute) in
  if resolvedAbsolute then slash :: p
  else match p with [] => dot | _ :: _ => p end.

(** Segments of an absolute, resolved path. *)
Definition segmentsOf (resolved : jsstring) : list jsstring :=
  filter truthy (split_slash resolved).

Fixpoint dropCommon (a b : list jsstring) : list jsstring * list jsstring :=
  match a, b with
  | x :: a', y :: b' => if str_eqb x y then dropCommon a' b' else (a, b)
  | _, _ => (a, b)
  end.

(** [relative(from, to)]: one [..] per segment of [from] below the
    common ancestor, then what is left of [to]. *)
Definition relative (from to : jsstring) : jsstring :=
  if str_eqb from to then []
  else
    let from' := resolve [from] in
    let to' := resolve [to] in
    if str_eqb from' to' then []
    else
      let '(up, down) := dropCommon (segmentsOf from') (segmentsOf to') in
      join_slash (map (fun _ => dotdot) up ++ down).

End WithCwd.

End Path.

(* ===================================================================== *)
(** ** Errors and results *)
(* ===================================================================== *)

(** A thrown [Error] object, with its message. *)
Inductive js_error : Type :=
| JsError (message : jsstring).

Definition error_message (e : js_error) : jsstring :=
  match e with JsError m => m end.

(** [`${error}`]: [Error.prototype.toString]. *)
Definition error_toString (e : js_error) : jsstring :=
  match error_message e with
  | [] => js "Error"
  | m => js "Error: " ++ m
  end.

(** The outcome of an awaited call: a value, or a thrown error. *)
Inductive result (A : Type) : Type :=
| Ok (a : A)
| Err (e : js_error).

Arguments Ok {A} a.
Arguments Err {A} e.

Definition is_ok {A} (r : result A) : bool :=
  match r with Ok _ => true | Err _ => false end.

(* ===================================================================== *)
(** ** The file system as [readdir] sees it *)
(* ===================================================================== *)

(** What [readdir(p, { withFileTypes: true })] answers for a directory and,
    recursively, for the directories it lists.  A [Dirent] whose
    [isDirectory()] is true is an [EDir] and carries the directory found
    under that name; every other entry (regular file, symbolic link,
    socket, ...) is an [EFile].  [Unreadable e] is a directory on which
    [readdir] rejects with [e]. *)
Inductive Dir : Type :=
| Listing (items : list Entry)
| Unreadable (e : js_error)
with Entry : Type :=
| EFile (name : jsstring)
| EDir (name : jsstring) (content : Dir).

Definition entry_name (item : Entry) : jsstring :=
  match item with EFile n => n | EDir n _ => n end.

Definition isDirectory (item : Entry) : bool :=
  match item with EFile _ => false | EDir _ _ => true end.

(** The name of the version-control marker directory. *)
Definition marker : jsstring := js ".git".

(** The [for (const item of items)] loop of [findGitRootInSubdirectories];
    [recur] is the function itself, called on a listed subdirectory. *)
Definition findGitRootItems
  (recur : jsstring -> Dir -> result (option jsstring))
  (currentPath : jsstring) : list Entry -> result (option jsstring) :=
  fix loop (items : list Entry) : result (option jsstring) :=
    match items with
    | [] => Ok None
    | item :: rest =>
        let itemPath := Path.join [currentPath; entry_name item] in
        match item with
        | EDir name sub =>
            if str_eqb name marker then Ok (Some currentPath)
            else
              match recur itemPath sub with
              | Err e => Err e
              | Ok gitRoot =>
                  if truthy_opt gitRoot then Ok gitRoot else loop rest
              end
        | EFile _ => loop rest
        end
    end.

(** [findGitRootInSubdirectories(currentPath)], where [dir] is what
    [readdir(currentPath)] answers.  [Ok None] is the [null] result. *)
Fixpoint findGitRootInSubdirectories (currentPath : jsstring) (dir : Dir)
  : result (option jsstring) :=
  match dir with
  | Unreadable e => Err e
  | Listing items =>
      findGitRootItems findGitRootInSubdirectories currentPath items
  end.

(** [interface DirectoryInfo]. *)
Inductive DirectoryInfo : Type :=
| mkDirectoryInfo (name path : jsstring) (subdirectories : list DirectoryInfo).

Definition name (d : DirectoryInfo) : jsstring :=
  match d with mkDirectoryInfo n _ _ => n end.
Definition path (d : DirectoryInfo) : jsstring :=
  match d with mkDirectoryInfo _ p _ => p end.
Definition subdirectories (d : DirectoryInfo) : list DirectoryInfo :=
  match d with mkDirectoryInfo _ _ s => s end.

(** [a || b] on strings. *)
Definition or_else (a b : jsstring) : jsstring :=
  if truthy a then a else b.

Section Hierarchy.

Variable cwd : jsstring.

(** The loop of [getDirectoryHierarchy]; [subdirectories] is the array
    being pushed to. *)
Definition getDirectoryHierarchyItems
  (recur : jsstring -> Dir -> result DirectoryInfo)
  (dirPath : jsstring)
  : list Entry -> list DirectoryInfo -> result (list DirectoryInfo) :=
  fix loop (items : list Entry) (subdirectories : list DirectoryInfo)
    : result (list DirectoryInfo) :=
    match items with
    | [] => Ok subdirectories
    | item :: rest =>
        let itemPath := Path.join [dirPath; entry_name item] in
        match item with
        | EDir _ sub =>
            match recur itemPath sub with
            | Err e => Err e
            | Ok subDirInfo => loop rest (subdirectories ++ [subDirInfo])
            end
        | EFile _ => loop rest subdirectories
        end
    end.

(** [getDirectoryHierarchy(dirPath, basePath)], where [dir] is what
    [readdir(dirPath)] answers. *)
Fixpoint getDirectoryHierarchy (dirPath basePath : jsstring) (dir : Dir)
  : result DirectoryInfo :=
  let name := or_else (Path.relative cwd basePath dirPath) (js ".") in
  match dir with
  | Unreadable e => Err e
  | Listing items =>
      match
        getDirectoryHierarchyItems
          (fun itemPath sub => getDirectoryHierarchy itemPath basePath sub)
          dirPath items []
      with
      | Err e => Err e
      | Ok subs => Ok (mkDirectoryInfo name dirPath subs)
      end
  end.

End Hierarchy.

(** *** Locating a directory from its path *)

Definition ENOENT : js_error := JsError (js "ENOENT: no such file or directory").
Definition ENOTDIR : js_error := JsError (js "ENOTDIR: not a directory").

Fixpoint findEntry (n : jsstring) (items : list Entry) : option Entry :=
  match items with
  | [] => None
  | item :: rest =>
      if str_eqb (entry_name item) n then Some item else findEntry n rest
  end.

(** The directory reached from [dir] along the segments [segs]. *)
Fixpoint walk (dir : Dir) (segs : list jsstring) : Dir :=
  match segs with
  | [] => dir
  | n :: segs' =>
      match dir with
      | Unreadable e => Unreadable e
      | Listing items =>
          match findEntry n items with
          | None => Unreadable ENOENT
          | Some (EFile _) => Unreadable ENOTDIR
          | Some (EDir _ sub) => walk sub segs'
          end
      end
  end.

(** A file system: the directory tree under [/] and the working directory. *)
Record FileSystem : Type := mkFileSystem {
  fs_root : Dir;
  fs_cwd : jsstring
}.

(** What [readdir(p)] answers, recursively, in a file system. *)
Definition treeAt (fs : FileSystem) (p : jsstring) : Dir :=
  walk (fs_root fs) (Path.segmentsOf (Path.resolve (fs_cwd fs) [p])).

(** RootLocator: [findGitRootInSubdirectories(startPath)] run against a
    file system. *)
Definition locateRoot (fs : FileSystem) (startPath : jsstring)
  : result (option jsstring) :=
  findGitRootInSubdirectories startPath (treeAt fs startPath).

(** TopologyBuilder: [getDirectoryHierarchy(root, root)] run against a
    file system. *)
Definition buildTopology (fs : FileSystem) (root : jsstring)
  : result DirectoryInfo :=
  getDirectoryHierarchy (fs_cwd fs) root root (treeAt fs root).

(** Example trees. *)
Definition dir (n : string) (items : list Entry) : Entry :=
  EDir (js n) (Listing items).
Definition file (n : string) : Entry := EFile (js n).

(** [/repo/.git] exists, [/repo/src/app] has no [.git]. *)
Definition fs_repo : FileSystem :=
  mkFileSystem
    (Listing [dir "repo" [dir ".git" [file "config"; dir "objects" []];
                          file "README.md";
                          dir "src" [dir "app" [file "main.ts"]]]])
    (js "/").

(** A workspace in which a nested repository is listed before the
    workspace's own [.git]. *)
Definition fs_nested : FileSystem :=
  mkFileSystem
    (Listing [dir "w" [dir ".cache" [dir "dep" [dir ".git" []]];
                       dir ".git" [];
                       dir "src" []]])
    (js "/").

(* ===================================================================== *)
(** ** Regular expressions, as [RegExp.prototype.exec] runs them *)
(* ===================================================================== *)

(** The fragment of the pattern language that [urlPattern] is written in.
    [Star] is the greedy [*]; [Group] is a capturing group, and since the
    pattern has a single one, the captures are the value of [match[1]]. *)
Inductive regex : Type :=
| Char (c : code_unit)
| Class (p : code_unit -> bool)
| Seq (r1 r2 : regex)
| Star (r : regex)
| Group (r : regex).

(** Greedy [+]. *)
Definition Plus (r : regex) : regex := Seq r (Star r).

(** [match[1]]: [None] while the group has not taken part in the match. *)
Definition captures := option jsstring.

(** A match in progress is the input left to read and the captures. *)
Definition MatchResult : Type := jsstring * captures.
Definition Continuation := jsstring -> captures -> option MatchResult.
Definition Matcher := jsstring -> captures -> Continuation -> option MatchResult.

(** Greedy repetition: one more iteration is tried first, and it must
    consume input; when what follows fails, the repetition stops here.
    [fuel] bounds the number of iterations by the length of the input. *)
Fixpoint repeatMatcher (m : Matcher) (fuel : nat) : Matcher :=
  fun s caps k =>
    match fuel with
    | O => k s caps
    | S fuel' =>
        match
          m s caps (fun s1 caps1 =>
                      if length s1 <? length s
                      then repeatMatcher m fuel' s1 caps1 k
                      else None)
        with
        | Some r => Some r
        | None => k s caps
        end
    end.

(** The backtracking matcher of the language specification, in
    continuation-passing style: [k] is the rest of the pattern. *)
Fixpoint matcher (r : regex) : Matcher :=
  fun s caps k =>
    match r with
    | Char c =>
        match s with
        | x :: s' => if N.eqb x c then k s' caps else None
        | [] => None
        end
    | Class p =>
        match s with
        | x :: s' => if p x then k s' caps else None
        | [] => None
        end
    | Seq r1 r2 => matcher r1 s caps (fun s1 caps1 => matcher r2 s1 caps1 k)
    | Star r1 => repeatMatcher (matcher r1) (length s) s caps k
    | Group r1 =>
        matcher r1 s caps
          (fun s1 _ => k s1 (Some (firstn (length s - length s1) s)))
    end.

(** One call of [exec] on a global pattern: [s] is the input from
    [lastIndex] on; the match is tried at each position in turn.  The
    answer is the input after the match (the new [lastIndex]) and the
    captures, or [None] for [null]. *)
Fixpoint exec (r : regex) (s : jsstring) : option MatchResult :=
  match matcher r s None (fun rest caps => Some (rest, caps)) with
  | Some m => Some m
  | None =>
      match s with
      | [] => None
      | _ :: s' => exec r s'
      end
  end.

(** [.]: any code unit but a line terminator. *)
Definition anyChar (c : code_unit) : bool := negb (isLineTerminator c).

Definition lit (s : string) : regex :=
  match js s with
  | [c] => Char c
  | _ => Class (fun _ => false)
  end.

(** [/url\s*=\s*(.+)/g]. *)
Definition urlPattern : regex :=
  Seq (lit "u") (Seq (lit "r") (Seq (lit "l")
    (Seq (Star (Class isSpace))
      (Seq (lit "=")
        (Seq (Star (Class isSpace))
          (Group (Plus (Class anyChar)))))))).

(** How a run of the [while] loop ends. *)
Inductive run (A : Type) : Type :=
| Done (a : A)
| Throws (e : js_error)
| OutOfFuel.

Arguments Done {A} a.
Arguments Throws {A} e.
Arguments OutOfFuel {A}.

Definition TypeError : js_error :=
  JsError (js "Cannot read properties of undefined (reading 'trim')").

(** The loop [while ((match = urlPattern.exec(configContent)) !== null)]:
    [s] is the content from [lastIndex] on, [urls] the array so far. *)
Fixpoint extractUrlsLoop (fuel : nat) (s : jsstring) (urls : list jsstring)
  : run (list jsstring) :=
  match fuel with
  | O => OutOfFuel
  | S fuel' =>
      match exec urlPattern s with
      | None => Done urls
      | Some (rest, Some m1) => extractUrlsLoop fuel' rest (urls ++ [trim m1])
      | Some (_, None) => Throws TypeError
      end
  end.

(** The loop, given one iteration per code unit and one more. *)
Definition extractUrlsRun (configContent : jsstring) : run (list jsstring) :=
  extractUrlsLoop (S (length configContent)) configContent [].

(** ConfigUrlExtractor: [extractUrlsFromConfig(configContent)].  The loop
    always ends with the array (see [extractUrlsRun_done]). *)
Definition extractUrlsFromConfig (configContent : jsstring) : list jsstring :=
  match extractUrlsRun configContent with
  | Done urls => urls
  | _ => []
  end.

Definition LF : string := String (ascii_of_nat 10) EmptyString.
Definition TAB : string := String (ascii_of_nat 9) EmptyString.
Definition CR : string := String (ascii_of_nat 13) EmptyString.

(* ===================================================================== *)
(** ** Effects: thrown errors and the editor's error messages *)
(* ===================================================================== *)

(** The messages handed to [vscode.window.showErrorMessage], oldest first. *)
Definition UI := list jsstring.

(** An [async] computation: it ends with a value or a thrown error, and
    may have shown messages on the way. *)
Definition M (A : Type) : Type := UI -> result A * UI.

Definition ret {A} (a : A) : M A := fun ui => (Ok a, ui).

Definition bind {A B} (m : M A) (k : A -> M B) : M B :=
  fun ui =>
    match m ui with
    | (Ok a, ui') => k a ui'
    | (Err e, ui') => (Err e, ui')
    end.

Definition throw {A} (e : js_error) : M A := fun ui => (Err e, ui).

(** [await] of a call whose outcome is [r]. *)
Definition await {A} (r : result A) : M A := fun ui => (r, ui).

(** [try { m } catch (error) { handler error }]. *)
Definition tryCatch {A} (m : M A) (handler : js_error -> M A) : M A :=
  fun ui =>
    match m ui with
    | (Ok a, ui') => (Ok a, ui')
    | (Err e, ui') => handler e ui'
    end.

Definition showErrorMessage (msg : jsstring) : M unit :=
  fun ui => (Ok tt, ui ++ [msg]).

Declare Scope js_scope.
Delimit Scope js_scope with js.
Notation "x <- m ;; k" := (bind m (fun x => k))
  (at level 61, m at next level, right associativity) : js_scope.
Notation "m ;; k" := (bind m (fun _ => k))
  (at level 61, right associativity) : js_scope.

(* ===================================================================== *)
(** ** The version-control backend ([simple-git]) *)
(* ===================================================================== *)

Module Git.

Record Commit : Type := mkCommit {
  hash : jsstring;
  date : jsstring;
  message : jsstring;
  author_name : jsstring
}.

(** [LogResult]. *)
Record LogResult : Type := mkLogResult {
  all : list Commit;
  total : N;
  latest : option Commit
}.

Record DiffResultFile : Type := mkDiffResultFile {
  file : jsstring;
  insertions : N;
  deletions : N
}.

(** [DiffResult]. *)
Record DiffResult : Type := mkDiffResult {
  files : list DiffResultFile;
  changed : N
}.

(** [StatusResult]; [tracking] is [string | null]. *)
Record StatusResult : Type := mkStatusResult {
  tracking : option jsstring;
  current : option jsstring;
  ahead : N;
  behind : N;
  staged : list jsstring;
  modified : list jsstring;
  not_added : list jsstring
}.

(** What the backend answers to each call, for one repository. *)
Record SimpleGit : Type := mkSimpleGit {
  listRemote : list jsstring -> result jsstring;
  revparse : list jsstring -> result jsstring;
  status : result StatusResult;
  log : list jsstring -> result LogResult;
  diffSummary : result DiffResult
}.

End Git.

(** Everything the engine reads: directories, files, and the backend
    obtained by [simpleGit(baseDir)]. *)
Record World : Type := mkWorld {
  fs : FileSystem;
  readFile : jsstring -> result jsstring;
  simpleGit : jsstring -> Git.SimpleGit
}.

(** [interface RepositoryInfo]. *)
Record RepositoryInfo : Type := mkRepositoryInfo {
  url : jsstring;
  mainFolderName : jsstring;
  currentBranch : jsstring;
  status : Git.StatusResult;
  commits : list Git.Commit;
  commitDiffs : list Git.DiffResultFile;
  branchDetails : list Git.LogResult;
  directoryHierarchy : DirectoryInfo;
  configUrls : list jsstring
}.

Definition NoRepositoryFound : js_error :=
  JsError (js "No Git repository found in the current project hierarchy.").

Local Open Scope js_scope.

(** SnapshotAggregator: [fetchRepositoryInfo(repoPath)]. *)
Definition fetchRepositoryInfo (w : World) (repoPath : jsstring)
  : M RepositoryInfo :=
  gitRoot <- await (findGitRootInSubdirectories repoPath (treeAt (fs w) repoPath)) ;;
  match gitRoot with
  | Some gitRoot =>
      if negb (truthy gitRoot) then throw NoRepositoryFound
      else
        let git := simpleGit w gitRoot in
        remoteUrl <-
          tryCatch
            (r <- await (Git.listRemote git [js "--get-url"]) ;; ret (Some r))
            (fun _ => ret None) ;;
        let mainFolderName :=
          last (Path.split_slash (Path.resolve (fs_cwd (fs w)) [gitRoot])) [] in
        currentBranch <- await (Git.revparse git [js "--abbrev-ref"; js "HEAD"]) ;;
        status <- await (Git.status git) ;;
        commits <- await (Git.log git []) ;;
        commitDiffs <- await (Git.diffSummary git) ;;
        branchDetails <-
          match Git.tracking status with
          | Some tracking =>
              if truthy tracking
              then (l <- await (Git.log git [tracking]) ;; ret [l])
              else ret []
          | None => ret []
          end ;;
        directoryHierarchy <-
          await (getDirectoryHierarchy (fs_cwd (fs w)) gitRoot gitRoot
                   (treeAt (fs w) gitRoot)) ;;
        let configFilePath := Path.join [gitRoot; js ".git"; js "config"] in
        configUrls <-
          tryCatch
            (configFileContent <- await (readFile w configFilePath) ;;
             ret (extractUrlsFromConfig configFileContent))
            (fun error =>
               showErrorMessage
                 (js "Error reading config file: " ++ error_toString error) ;;
               ret []) ;;
        ret {| url := match remoteUrl with
                      | Some r => if truthy r then trim r else []
                      | None => []
                      end;
               mainFolderName := mainFolderName;
               currentBranch := trim currentBranch;
               status := status;
               commits := Git.all commits;
               commitDiffs := Git.files commitDiffs;
               branchDetails := branchDetails;
               directoryHierarchy := directoryHierarchy;
               configUrls := configUrls |}
  | None => throw NoRepositoryFound
  end.

(** [displayRepositoryInfo()], where [rootPath] is what
    [vscode.workspace.rootPath] holds. *)
Definition displayRepositoryInfo (w : World) (rootPath : option jsstring)
  : M (option RepositoryInfo) :=
  if truthy_opt rootPath then
    match rootPath with
    | Some repoPath =>
        tryCatch
          (repoInfo <- fetchRepositoryInfo w repoPath ;; ret (Some repoInfo))
          (fun error =>
             showErrorMessage
               (js "Error fetching repository info: " ++ error_message error) ;;
             ret None)
    | None => ret None
    end
  else (showErrorMessage (js "No workspace opened.") ;; ret None).

Local Close Scope js_scope.

(** A backend that answers every call. *)
Definition commit0 : Git.Commit :=
  Git.mkCommit (js "a1b2c3") (js "2024-01-01") (js "init") (js "dev").
Definition log0 : Git.LogResult := Git.mkLogResult [commit0] 1 (Some commit0).
Definition status0 (tracking : option jsstring) : Git.StatusResult :=
  Git.mkStatusResult tracking (Some (js "main")) 0 0 [] [] [].
Definition git_ok (tracking : option jsstring) : Git.SimpleGit :=
  Git.mkSimpleGit
    (fun _ => Ok (js ("https://example.com/a.git" ++ LF)%string))
    (fun _ => Ok (js ("main" ++ LF)%string))
    (Ok (status0 tracking))
    (fun _ => Ok log0)
    (Ok (Git.mkDiffResult [Git.mkDiffResultFile (js "README.md") 1 0] 1)).

Definition config0 : jsstring :=
  js ("[remote]" ++ LF ++ "  url = https://example.com/a.git" ++ LF)%string.

Definition world_ok : World :=
  mkWorld fs_repo
    (fun p => if str_eqb p (js "/repo/.git/config") then Ok config0 else Err ENOENT)
    (fun _ => git_ok None).

(* ===================================================================== *)
(** ** Well-formed names and paths *)
(* ===================================================================== *)

Definition noSlash (s : jsstring) : bool :=
  forallb (fun c => negb (N.eqb c Path.slash)) s.

(** A name as [readdir] lists them: not empty, no [/], not [.] or [..]. *)
Definition valid_name (n : jsstring) : bool :=
  truthy n && noSlash n && negb (str_eqb n Path.dot) && negb (str_eqb n Path.dotdot).

(** The absolute, resolved path with the given segments; [/] when there
    are none. *)
Definition abs_path (segs : list jsstring) : jsstring :=
  Path.slash :: Path.join_slash segs.

(** A directory tree in which every listed directory has a valid name. *)
Fixpoint valid_dir (d : Dir) : bool :=
  match d with
  | Unreadable _ => true
  | Listing items =>
      forallb (fun item =>
                 match item with
                 | EFile _ => true
                 | EDir n sub => valid_name n && valid_dir sub
                 end) items
  end.

(** Every directory of the tree can be listed. *)
Fixpoint readable (d : Dir) : bool :=
  match d with
  | Unreadable _ => false
  | Listing items =>
      forallb (fun item =>
                 match item with
                 | EFile _ => true
                 | EDir _ sub => readable sub
                 end) items
  end.

(** No directory of the tree lists a directory named [.git]. *)
Fixpoint marker_free (d : Dir) : bool :=
  match d with
  | Unreadable _ => true
  | Listing items =>
      forallb (fun item =>
                 match item with
                 | EFile _ => true
                 | EDir n sub => negb (str_eqb n marker) && marker_free sub
                 end) items
  end.

(** The listing has a directory entry named [.git]. *)
Definition has_marker (items : list Entry) : bool :=
  existsb (fun item => isDirectory item && str_eqb (entry_name item) marker) items.

(** Number of directories of a tree, its root included. *)
Fixpoint count_dirs (d : Dir) : nat :=
  match d with
  | Unreadable _ => 1
  | Listing items =>
      S (list_sum (map (fun item =>
                          match item with
                          | EFile _ => 0
                          | EDir _ sub => count_dirs sub
                          end) items))
  end.

(** The paths of the directories of a tree found at [p], in listing order. *)
Fixpoint dir_paths (p : jsstring) (d : Dir) : list jsstring :=
  match d with
  | Unreadable _ => [p]
  | Listing items =>
      p :: flat_map (fun item =>
                       match item with
                       | EFile _ => []
                       | EDir n sub => dir_paths (Path.join [p; n]) sub
                       end) items
  end.

(** Number of nodes of a hierarchy. *)
Fixpoint count_nodes (t : DirectoryInfo) : nat :=
  match t with
  | mkDirectoryInfo _ _ subs => S (list_sum (map count_nodes subs))
  end.

(** The nodes of a hierarchy, parents first. *)
Fixpoint nodes (t : DirectoryInfo) : list DirectoryInfo :=
  match t with
  | mkDirectoryInfo _ _ subs => t :: flat_map nodes subs
  end.

(** [r] is [p] or is obtained from [p] by joining, one after the other,
    the names of a chain of listed subdirectories of [d]. *)
Inductive descends : jsstring -> Dir -> jsstring -> Prop :=
| descends_here p d : descends p d p
| descends_sub p items n sub r :
    In (EDir n sub) items ->
    descends (Path.join [p; n]) sub r ->
    descends p (Listing items) r.

(** The directory at [p] lists a marker directory. *)
Definition marker_at (fs : FileSystem) (p : jsstring) : bool :=
  match treeAt fs p with
  | Listing items => has_marker items
  | Unreadable _ => false
  end.

Fixpoint prefixes {A} (l : list A) : list (list A) :=
  [] :: match l with
        | [] => []
        | x :: l' => map (cons x) (prefixes l')
        end.

Fixpoint segs_eqb (a b : list jsstring) : bool :=
  match a, b with
  | [], [] => true
  | x :: a', y :: b' => str_eqb x y && segs_eqb a' b'
  | _, _ => false
  end.

(** Among the directories from [/] down to [r ++ ns], the one at [r], and
    only that one, lists a marker directory. *)
Definition only_marker_above (fs : FileSystem) (r ns : list jsstring) : bool :=
  marker_at fs (abs_path r)
  && forallb (fun q => segs_eqb q r || negb (marker_at fs (abs_path q)))
       (prefixes (r ++ ns)).

(** A workspace whose [.git] is listed after a file and a plain
    subdirectory, and before a subdirectory that cannot be read. *)
Definition fs_late : FileSystem :=
  mkFileSystem
    (Listing [dir "w" [file "a.txt";
                       dir "docs" [dir "api" []];
                       dir ".git" [];
                       EDir (js "vault") (Unreadable (JsError (js "EACCES: permission denied")))]])
    (js "/").

(** *** The line-wise reading of the configuration text *)

(** ['='] *)
Definition equals_sign : code_unit := 61%N.

(** The value of a line of the form [url = X]: optional whitespace, the
    key [url], optional whitespace, [=], optional whitespace, and then
    [X], the rest of the line.  [None] when the line has another form. *)
Definition url_value (line : jsstring) : option jsstring :=
  match stripPrefix (js "url") (trimStart line) with
  | None => None
  | Some afterKey =>
      match trimStart afterKey with
      | c :: afterEq =>
          if N.eqb c equals_sign then Some (trimStart afterEq) else None
      | [] => None
      end
  end.

(** Follows the specification: one value for every line of the form
    [url = X], in order, trimmed of trailing whitespace. *)
Definition spec_extractUrls (lines : list jsstring) : list jsstring :=
  flat_map (fun line =>
              match url_value line with
              | Some X => [trimEnd X]
              | None => []
              end) lines.

(** The number of lines of the form [url = X]. *)
Definition count_url_lines (lines : list jsstring) : nat :=
  List.length (filter (fun line => match url_value line with
                                   | Some _ => true
                                   | None => false
                                   end) lines).

(** The text made of the lines [ls], each followed by its line
    terminator, and of the last line [final]. *)
Fixpoint text_of (ls : list (jsstring * code_unit)) (final : jsstring) : jsstring :=
  match ls with
  | [] => final
  | (line, t) :: ls' => line ++ t :: text_of ls' final
  end.

(** At the start of [s] stands [url], followed after optional whitespace
    by [=] or by the end of the line. *)
Definition key_here (s : jsstring) : bool :=
  match stripPrefix (js "url") s with
  | None => false
  | Some r =>
      match dropWhile isSpace r with
      | [] => true
      | c :: _ => N.eqb c equals_sign
      end
  end.

(** Somewhere in the line stands such a key. *)
Fixpoint has_key (line : jsstring) : bool :=
  match line with
  | [] => false
  | _ :: line' => key_here line || has_key line'
  end.

(** A line that the pattern reads the way the specification does: it
    holds no line terminator, and either has the form [url = X] with [X]
    not empty, or holds no key at all. *)
Definition plain_line (line : jsstring) : bool :=
  forallb anyChar line
  && match url_value line with
     | Some X => truthy X
     | None => negb (has_key line)
     end.

(** *** The steps of the aggregator *)

(** Step 5: the log of the tracking branch, when the status names one. *)
Definition tracking_log (git : Git.SimpleGit) (st : Git.StatusResult)
  : result (list Git.LogResult) :=
  match Git.tracking st with
  | Some t =>
      if truthy t then
        match Git.log git [t] with
        | Ok l => Ok [l]
        | Err e => Err e
        end
      else Ok []
  | None => Ok []
  end.

(** The root search finds a root, and current branch, status, commit log
    and diff summary are answered, and the topology is built. *)
Definition required_succeed (w : World) (repoPath : jsstring) : bool :=
  match locateRoot (fs w) repoPath with
  | Ok (Some gitRoot) =>
      let git := simpleGit w gitRoot in
      truthy gitRoot
      && is_ok (Git.revparse git [js "--abbrev-ref"; js "HEAD"])
      && is_ok (Git.status git)
      && is_ok (Git.log git [])
      && is_ok (Git.diffSummary git)
      && is_ok (buildTopology (fs w) gitRoot)
  | _ => false
  end.

(** The log of the tracking branch, if the status names one, is answered. *)
Definition tracking_succeeds (w : World) (repoPath : jsstring) : bool :=
  match locateRoot (fs w) repoPath with
  | Ok (Some gitRoot) =>
      let git := simpleGit w gitRoot in
      match Git.status git with
      | Ok st => is_ok (tracking_log git st)
      | Err _ => false
      end
  | _ => false
  end.

Definition all_succeed (w : World) (repoPath : jsstring) : bool :=
  required_succeed w repoPath && tracking_succeeds w repoPath.

Definition configFilePath (gitRoot : jsstring) : jsstring :=
  Path.join [gitRoot; js ".git"; js "config"].

Definition config_error_message (e : js_error) : jsstring :=
  js "Error reading config file: " ++ error_toString e.

(** A backend whose status names a tracking branch that has no log. *)
Definition git_tracking_lost : Git.SimpleGit :=
  Git.mkSimpleGit
    (fun _ => Ok (js ("https://example.com/a.git" ++ LF)%string))
    (fun _ => Ok (js ("main" ++ LF)%string))
    (Ok (status0 (Some (js "origin/main"))))
    (fun args => match args with
                 | [] => Ok log0
                 | _ => Err (JsError (js "fatal: bad revision 'origin/main'"))
                 end)
    (Ok (Git.mkDiffResult [] 0)).

Definition world_tracking_lost : World :=
  mkWorld fs_repo (fun _ => Ok config0) (fun _ => git_tracking_lost).

(** A backend with a tracking branch and no remote, in a repository whose
    configuration file cannot be read. *)
Definition log1 : Git.LogResult := Git.mkLogResult [] 0 None.
Definition git_no_remote : Git.SimpleGit :=
  Git.mkSimpleGit
    (fun _ => Err (JsError (js "fatal: No remote configured")))
    (fun _ => Ok (js ("main" ++ LF)%string))
    (Ok (status0 (Some (js "origin/main"))))
    (fun args => match args with
                 | [] => Ok log0
                 | _ => Ok log1
                 end)
    (Ok (Git.mkDiffResult [] 0)).

Definition world_no_config : World :=
  mkWorld fs_repo (fun _ => Err ENOENT) (fun _ => git_no_remote).

(** *** Definitions used by the proofs *)

(** A segment that normalization drops or keeps as it is. *)
Definition plain (seg : jsstring) : Prop :=
  seg = [] \/ seg = Path.dot \/ valid_name seg = true.

Definition kept (seg : jsstring) : bool :=
  truthy seg && negb (str_eqb seg Path.dot).

(** The entries before the first marker directory are passed over when
    their subtrees yield nothing. *)
Definition passed_over (item : Entry) : bool :=
  match item with
  | EFile _ => true
  | EDir n sub => negb (str_eqb n marker) && readable sub && marker_free sub
  end.

(** [a] is a proper ancestor of [p]. *)
Definition proper_ancestor (a p : jsstring) : Prop :=
  exists sa ms,
    Forall (fun n => valid_name n = true) (sa ++ ms) /\ ms <> [] /\
    a = abs_path sa /\ p = abs_path (sa ++ ms).

(** The label of a node, resolved against the root, is the node's path. *)
Definition label_ok (cwd basePath : jsstring) (t : DirectoryInfo) : Prop :=
  Path.resolve cwd [basePath; name t] = path t.

(** What [getDirectoryHierarchy] builds for a directory found at [p]. *)
Definition built (cwd basePath p : jsstring) (d : Dir) (t : DirectoryInfo) : Prop :=
  path t = p /\
  name t = or_else (Path.relative cwd basePath p) (js ".") /\
  count_nodes t = count_dirs d /\
  map path (nodes t) = dir_paths p d /\
  (forall segs ns,
      basePath = abs_path segs -> p = abs_path (segs ++ ns) ->
      Forall (fun n => valid_name n = true) (segs ++ ns) ->
      valid_dir d = true ->
      Forall (label_ok cwd basePath) (nodes t)).

Definition count_item (item : Entry) : nat :=
  match item with EFile _ => 0 | EDir _ sub => count_dirs sub end.

Definition paths_item (p : jsstring) (item : Entry) : list jsstring :=
  match item with
  | EFile _ => []
  | EDir n sub => dir_paths (Path.join [p; n]) sub
  end.

Definition readable_item (item : Entry) : bool :=
  match item with EFile _ => true | EDir _ sub => readable sub end.

Definition valid_item (item : Entry) : bool :=
  match item with EFile _ => true | EDir n sub => valid_name n && valid_dir sub end.

(** The rest of [urlPattern] after the key [url]. *)
Definition afterEq : regex :=
  Seq (Star (Class isSpace)) (Group (Plus (Class anyChar))).
Definition afterKey : regex :=
  Seq (Star (Class isSpace)) (Seq (Char equals_sign) afterEq).

(** The continuation that ends a match. *)
Definition k0 : Continuation := fun rest caps => Some (rest, caps).

(** The input after a run of the class: empty, or starting outside it. *)
Definition stops (p : code_unit -> bool) (tail : jsstring) : Prop :=
  match tail with
  | [] => True
  | c :: _ => p c = false
  end.

(** What follows a line: the end of the text, or a line terminator. *)
Definition line_end (tail : jsstring) : Prop :=
  match tail with
  | [] => True
  | t :: _ => isLineTerminator t = true
  end.

Definition nl : code_unit := 10%N.

Definition config_lines : list (jsstring * code_unit) :=
  [(js "[remote]", nl);
   (js "  url = https://example.com/a.git  ", nl);
   (js "fetch = +refs/heads/*", nl);
   (js ("" ++ TAB ++ "url=https://example.com/a.git")%string, nl)].

(** The last step: reading the configuration file never fails the call. *)
Definition config_step (w : World) (gitRoot : jsstring) (ui : UI)
  : list jsstring * UI :=
  match readFile w (configFilePath gitRoot) with
  | Ok content => (extractUrlsFromConfig content, ui)
  | Err e => ([], ui ++ [config_error_message e])
  end.

Definition remote_url (git : Git.SimpleGit) : jsstring :=
  match Git.listRemote git [js "--get-url"] with
  | Ok r => if truthy r then trim r else []
  | Err _ => []
  end.

(** The returned object, from what the steps collected. *)
Definition assemble (w : World) (gitRoot currentBranch : jsstring)
  (st : Git.StatusResult) (lg : Git.LogResult) (df : Git.DiffResult)
  (bd : list Git.LogResult) (topo : DirectoryInfo) (urls : list jsstring)
  : RepositoryInfo :=
  {| url := remote_url (simpleGit w gitRoot);
     mainFolderName :=
       last (Path.split_slash (Path.resolve (fs_cwd (fs w)) [gitRoot])) [];
     currentBranch := trim currentBranch;
     status := st;
     commits := Git.all lg;
     commitDiffs := Git.files df;
     branchDetails := bd;
     directoryHierarchy := topo;
     configUrls := urls |}.

(** *** Further definitions for the root search *)

(** What the search meets below [p], in visiting order: a directory that
    lists a marker ([Ok]), or a directory that cannot be listed ([Err]). *)
Fixpoint events (p : jsstring) (d : Dir) : list (result jsstring) :=
  match d with
  | Unreadable e => [Err e]
  | Listing items =>
      flat_map (fun item =>
                  match item with
                  | EFile _ => []
                  | EDir n sub =>
                      if str_eqb n marker then [Ok p]
                      else events (Path.join [p; n]) sub
                  end) items
  end.

(** The outcome that the first event stands for. *)
Definition first_event (evs : list (result jsstring)) : result (option jsstring) :=
  match evs with
  | [] => Ok None
  | Ok r :: _ => Ok (Some r)
  | Err e :: _ => Err e
  end.

Fixpoint distinct (l : list jsstring) : bool :=
  match l with
  | [] => true
  | x :: l' => negb (existsb (str_eqb x) l') && distinct l'
  end.

(** No directory of the tree lists a name twice. *)
Fixpoint unique_names (d : Dir) : bool :=
  match d with
  | Unreadable _ => true
  | Listing items =>
      distinct (map entry_name items)
      && forallb (fun item =>
                    match item with
                    | EFile _ => true
                    | EDir _ sub => unique_names sub
                    end) items
  end.

(** [reaches p d r d']: descending from the directory [d] found at [p]
    along listed subdirectories leads to the directory [d'], at [r]. *)
Inductive reaches : jsstring -> Dir -> jsstring -> Dir -> Prop :=
| reaches_here p d : reaches p d p d
| reaches_sub p items n sub r d' :
    In (EDir n sub) items ->
    reaches (Path.join [p; n]) sub r d' ->
    reaches p (Listing items) r d'.

(** *** Further example worlds *)

(** A workspace whose root is found but holds a directory that cannot be
    listed. *)
Definition world_late : World :=
  mkWorld fs_late (fun _ => Ok config0) (fun _ => git_ok None).

Definition EACCES : js_error := JsError (js "EACCES: permission denied").

(* ===================================================================== *)
(** ** Executable checks *)
(* ===================================================================== *)

Example join_ex1 : Path.join [js "/repo"; js "src"] = js "/repo/src".
Proof. reflexivity. Qed.

Example join_ex2 : Path.join [js "/repo/"; js ".git"; js "config"] = js "/repo/.git/config".
Proof. reflexivity. Qed.

Example join_ex3 : Path.join [js "/"; js "a"] = js "/a".
Proof. reflexivity. Qed.

Example join_ex4 : Path.join [js "a/../.."; js "b"] = js "../b".
Proof. reflexivity. Qed.

Example resolve_ex1 : Path.resolve (js "/home/u") [js "proj/x"] = js "/home/u/proj/x".
Proof. reflexivity. Qed.

Example resolve_ex2 : Path.resolve (js "/home/u") [js "/repo/"; js "."] = js "/repo".
Proof. reflexivity. Qed.

Example relative_ex1 : Path.relative (js "/") (js "/repo") (js "/repo/src/app") = js "src/app".
Proof. reflexivity. Qed.

Example relative_ex2 : Path.relative (js "/") (js "/repo/a") (js "/repo/b/c") = js "../b/c".
Proof. reflexivity. Qed.

Example relative_ex3 : Path.relative (js "/") (js "/") (js "/repo") = js "repo".
Proof. reflexivity. Qed.

Example locate_repo : locateRoot fs_repo (js "/repo") = Ok (Some (js "/repo")).
Proof. reflexivity. Qed.

Example locate_top : locateRoot fs_repo (js "/") = Ok (Some (js "/repo")).
Proof. reflexivity. Qed.

Example locate_app : locateRoot fs_repo (js "/repo/src/app") = Ok None.
Proof. reflexivity. Qed.

Example locate_nested : locateRoot fs_nested (js "/w") = Ok (Some (js "/w/.cache/dep")).
Proof. reflexivity. Qed.

Example topo_repo :
  buildTopology fs_repo (js "/repo") =
  Ok (mkDirectoryInfo (js ".") (js "/repo")
        [mkDirectoryInfo (js ".git") (js "/repo/.git")
           [mkDirectoryInfo (js ".git/objects") (js "/repo/.git/objects") []];
         mkDirectoryInfo (js "src") (js "/repo/src")
           [mkDirectoryInfo (js "src/app") (js "/repo/src/app") []]]).
Proof. reflexivity. Qed.

Example extract_scenario :
  extractUrlsFromConfig
    (js ("  url = https://example.com/a.git" ++ LF ++ TAB ++ "url=https://example.com/b.git")%string)
  = [js "https://example.com/a.git"; js "https://example.com/b.git"].
Proof. vm_compute. reflexivity. Qed.

Example extract_crlf :
  extractUrlsRun
    (js ("[remote]" ++ CR ++ LF ++ "url = x  " ++ CR ++ LF ++ "fetch = y")%string)
  = Done [js "x"].
Proof. vm_compute. reflexivity. Qed.

Example extract_next_line :
  extractUrlsFromConfig (js ("url =" ++ LF ++ "foo")%string) = [js "foo"].
Proof. vm_compute. reflexivity. Qed.

Example extract_blank :
  extractUrlsFromConfig (js ("url =  ")) = [js ""].
Proof. vm_compute. reflexivity. Qed.

Example extract_pushurl :
  extractUrlsFromConfig (js ("url = a" ++ LF ++ "pushurl = b")%string) = [js "a"; js "b"].
Proof. vm_compute. reflexivity. Qed.

Example fetch_ok :
  fetchRepositoryInfo world_ok (js "/repo") [] =
  (Ok {| url := js "https://example.com/a.git";
         mainFolderName := js "repo";
         currentBranch := js "main";
         status := status0 None;
         commits := [commit0];
         commitDiffs := [Git.mkDiffResultFile (js "README.md") 1 0];
         branchDetails := [];
         directoryHierarchy :=
           mkDirectoryInfo (js ".") (js "/repo")
             [mkDirectoryInfo (js ".git") (js "/repo/.git")
                [mkDirectoryInfo (js ".git/objects") (js "/repo/.git/objects") []];
              mkDirectoryInfo (js "src") (js "/repo/src")
                [mkDirectoryInfo (js "src/app") (js "/repo/src/app") []]];
         configUrls := [js "https://example.com/a.git"] |}, []).
Proof. vm_compute. reflexivity. Qed.

(* ===================================================================== *)
(** ** Facts about strings and paths *)
(* ===================================================================== *)

Lemma str_eqb_refl a : str_eqb a a = true.
Proof. induction a as [|x a IH]; simpl; [reflexivity|]. now rewrite N.eqb_refl. Qed.

Lemma str_eqb_eq a b : str_eqb a b = true <-> a = b.
Proof.
  split.
  - revert b. induction a as [|x a IH]; destruct b as [|y b]; simpl; try easy.
    intros H. apply andb_true_iff in H as [Hx Hr].
    apply N.eqb_eq in Hx. f_equal; auto.
  - intros ->. apply str_eqb_refl.
Qed.

Lemma str_eqb_neq a b : a <> b -> str_eqb a b = false.
Proof.
  intros H. destruct (str_eqb a b) eqn:E; [|reflexivity].
  apply str_eqb_eq in E. contradiction.
Qed.

Module PathFacts.
Import Path.

Lemma split_slash_nonempty s : split_slash s <> [].
Proof.
  destruct s as [|c s]; simpl; [discriminate|].
  destruct (N.eqb c slash); [discriminate|].
  destruct (split_slash s); discriminate.
Qed.

Lemma split_slash_app a b :
  split_slash (a ++ slash :: b) = split_slash a ++ split_slash b.
Proof.
  induction a as [|c a IH]; simpl.
  - reflexivity.
  - destruct (N.eqb c slash).
    + now rewrite IH.
    + rewrite IH. pose proof (split_slash_nonempty a) as Hne.
      destruct (split_slash a); [contradiction|reflexivity].
Qed.

Lemma split_slash_noSlash s : noSlash s = true -> split_slash s = [s].
Proof.
  induction s as [|c s IH]; simpl; [reflexivity|].
  intros H. apply andb_true_iff in H as [Hc Hs].
  apply negb_true_iff in Hc. rewrite Hc, (IH Hs). reflexivity.
Qed.

Lemma split_join_slash segs :
  Forall (fun n => noSlash n = true) segs -> segs <> [] ->
  split_slash (join_slash segs) = segs.
Proof.
  induction segs as [|n segs IH]; intros Hall Hne; [contradiction|].
  inversion Hall as [|? ? Hn Hrest]; subst.
  destruct segs as [|n' segs'].
  - simpl. now apply split_slash_noSlash.
  - change (join_slash (n :: n' :: segs')) with (n ++ slash :: join_slash (n' :: segs')).
    rewrite split_slash_app, (split_slash_noSlash _ Hn), IH; auto. discriminate.
Qed.

Lemma valid_name_truthy n : valid_name n = true -> truthy n = true.
Proof. unfold valid_name. intros H. repeat (apply andb_true_iff in H as [H ?]). exact H. Qed.

Lemma valid_name_noSlash n : valid_name n = true -> noSlash n = true.
Proof. unfold valid_name. intros H. repeat (apply andb_true_iff in H as [H ?]). assumption. Qed.

Lemma valid_name_not_dot n : valid_name n = true -> str_eqb n dot = false.
Proof.
  unfold valid_name. intros H. repeat (apply andb_true_iff in H as [H ?]).
  now apply negb_true_iff.
Qed.

Lemma valid_name_not_dotdot n : valid_name n = true -> str_eqb n dotdot = false.
Proof.
  unfold valid_name. intros H. repeat (apply andb_true_iff in H as [H ?]).
  now apply negb_true_iff.
Qed.

Lemma valid_name_not_empty n : valid_name n = true -> str_eqb n [] = false.
Proof. intros H. apply valid_name_truthy in H. destruct n; [discriminate|reflexivity]. Qed.

Lemma normalizeSegments_plain b segs :
  Forall plain segs ->
  forall acc, normalizeSegments b segs acc = rev acc ++ filter kept segs.
Proof.
  induction 1 as [|seg segs Hseg _ IH]; intros acc; simpl.
  - now rewrite app_nil_r.
  - destruct Hseg as [-> | [-> | Hv]].
    + simpl. apply IH.
    + simpl. apply IH.
    + rewrite (valid_name_not_empty _ Hv), (valid_name_not_dot _ Hv),
        (valid_name_not_dotdot _ Hv). simpl.
      unfold kept at 1. rewrite (valid_name_truthy _ Hv), (valid_name_not_dot _ Hv).
      simpl. rewrite IH. simpl. now rewrite <- app_assoc.
Qed.

Lemma filter_kept_valid segs :
  Forall (fun n => valid_name n = true) segs -> filter kept segs = segs.
Proof.
  induction 1 as [|n segs Hn _ IH]; simpl; [reflexivity|].
  unfold kept at 1. rewrite (valid_name_truthy _ Hn), (valid_name_not_dot _ Hn).
  simpl. now rewrite IH.
Qed.

Lemma filter_truthy_valid segs :
  Forall (fun n => valid_name n = true) segs -> filter truthy segs = segs.
Proof.
  induction 1 as [|n segs Hn _ IH]; simpl; [reflexivity|].
  rewrite (valid_name_truthy _ Hn). now rewrite IH.
Qed.

Lemma Forall_valid_noSlash segs :
  Forall (fun n => valid_name n = true) segs ->
  Forall (fun n => noSlash n = true) segs.
Proof. apply Forall_impl. intros n. apply valid_name_noSlash. Qed.

Lemma Forall_valid_plain segs :
  Forall (fun n => valid_name n = true) segs -> Forall plain segs.
Proof. apply Forall_impl. intros n H. right. now right. Qed.

(** The segments of [join_slash segs], whatever [segs] is. *)
Lemma split_join_slash_plain segs :
  Forall (fun n => valid_name n = true) segs ->
  Forall plain (split_slash (join_slash segs)) /\
  filter kept (split_slash (join_slash segs)) = segs /\
  filter truthy (split_slash (join_slash segs)) = segs.
Proof.
  intros Hall. destruct segs as [|n segs].
  - simpl. repeat split; auto. constructor; [now left|constructor].
  - rewrite split_join_slash; [|now apply Forall_valid_noSlash|discriminate].
    repeat split.
    + now apply Forall_valid_plain.
    + now apply filter_kept_valid.
    + now apply filter_truthy_valid.
Qed.

Lemma join_slash_truthy n segs :
  truthy n = true -> truthy (join_slash (n :: segs)) = true.
Proof. destruct n; [discriminate|]. now destruct segs. Qed.

Lemma join_slash_snoc_truthy segs n :
  truthy n = true -> truthy (join_slash (segs ++ [n])) = true.
Proof.
  intros Hn. induction segs as [|m segs IH]; simpl; [exact Hn|].
  destruct (segs ++ [n]) eqn:E.
  - now destruct segs.
  - destruct m; reflexivity.
Qed.

Lemma segmentsOf_abs_path segs :
  Forall (fun n => valid_name n = true) segs ->
  segmentsOf (abs_path segs) = segs.
Proof.
  intros Hall. unfold segmentsOf, abs_path. simpl.
  now destruct (split_join_slash_plain segs Hall) as (_ & _ & ->).
Qed.

Lemma abs_path_inj a b :
  Forall (fun n => valid_name n = true) a ->
  Forall (fun n => valid_name n = true) b ->
  abs_path a = abs_path b -> a = b.
Proof.
  intros Ha Hb E. rewrite <- (segmentsOf_abs_path a Ha), <- (segmentsOf_abs_path b Hb).
  now rewrite E.
Qed.


Lemma last_app_nonempty (a b : jsstring) d :
  b <> [] -> last (a ++ b) d = last b d.
Proof.
  intros Hb. induction a as [|x a IH]; simpl; [reflexivity|].
  destruct (a ++ b) eqn:E; [|exact IH].
  destruct a; [contradiction | discriminate].
Qed.

Lemma last_noSlash n d :
  truthy n = true -> noSlash n = true -> N.eqb (last n d) slash = false.
Proof.
  induction n as [|c n IH]; [discriminate|].
  intros _ H. simpl in H. apply andb_true_iff in H as [Hc Hn].
  destruct n as [|c' n']; simpl.
  - now apply negb_true_iff.
  - apply IH; auto.
Qed.

Lemma normalizeString_plain p b :
  Forall plain (split_slash p) ->
  normalizeString p b = join_slash (filter kept (split_slash p)).
Proof.
  intros H. unfold normalizeString. now rewrite normalizeSegments_plain.
Qed.

Lemma normalize_absolute rest p :
  N.eqb (last (slash :: rest) 0%N) slash = false ->
  normalizeString (slash :: rest) false = p ->
  truthy p = true ->
  normalize (slash :: rest) = slash :: p.
Proof.
  intros Hlast Hnorm Ht. unfold normalize, isAbsolute.
  rewrite N.eqb_refl. cbn [negb]. rewrite Hnorm, Hlast.
  destruct p; [discriminate | reflexivity].
Qed.

(** [join(root, n)] appends a segment to a resolved path. *)
Lemma join_abs_path segs n :
  Forall (fun n => valid_name n = true) segs ->
  valid_name n = true ->
  join [abs_path segs; n] = abs_path (segs ++ [n]).
Proof.
  intros Hsegs Hn.
  pose proof (valid_name_truthy _ Hn) as Hnt.
  pose proof (valid_name_noSlash _ Hn) as Hns.
  destruct (split_join_slash_plain segs Hsegs) as (Hpl & Hk & _).
  unfold join. simpl filter. rewrite Hnt.
  change (join_slash [abs_path segs; n]) with (abs_path segs ++ slash :: n).
  assert (Hsplit : split_slash (abs_path segs ++ slash :: n)
                   = ([] :: split_slash (join_slash segs)) ++ [n]).
  { rewrite split_slash_app, (split_slash_noSlash _ Hns). reflexivity. }
  assert (Hnorm : normalizeString (abs_path segs ++ slash :: n) false
                  = join_slash (segs ++ [n])).
  { rewrite normalizeString_plain; rewrite Hsplit.
    - rewrite filter_app. simpl. f_equal. f_equal; [exact Hk|].
      unfold kept. now rewrite Hnt, (valid_name_not_dot _ Hn).
    - apply Forall_app. split.
      + constructor; [now left | exact Hpl].
      + constructor; [right; now right | constructor]. }
  assert (Hlast : N.eqb (last (abs_path segs ++ slash :: n) 0%N) slash = false).
  { replace (abs_path segs ++ slash :: n) with ((abs_path segs ++ [slash]) ++ n)
      by now rewrite <- app_assoc.
    rewrite last_app_nonempty by (destruct n; discriminate).
    now apply last_noSlash. }
  apply (normalize_absolute (join_slash segs ++ slash :: n) _ Hlast Hnorm).
  apply join_slash_snoc_truthy, Hnt.
Qed.

Lemma split_abs_path_plain segs :
  Forall (fun n => valid_name n = true) segs ->
  Forall plain (split_slash (abs_path segs)) /\
  filter kept (split_slash (abs_path segs)) = segs.
Proof.
  intros Hsegs. destruct (split_join_slash_plain segs Hsegs) as (Hpl & Hk & _).
  unfold abs_path. cbn [split_slash]. rewrite N.eqb_refl. split.
  - constructor; [now left | exact Hpl].
  - exact Hk.
Qed.

Section Resolve.

Variable cwd : jsstring.

Lemma resolveLoop_abs segs rest acc :
  resolveLoop (abs_path segs :: rest) acc false
  = (abs_path segs ++ slash :: acc, true).
Proof. unfold abs_path. destruct rest; reflexivity. Qed.

Lemma resolveLoop_rel rel rest acc :
  truthy rel = true -> isAbsolute rel = false ->
  resolveLoop (rel :: rest) acc false
  = resolveLoop rest (rel ++ slash :: acc) false.
Proof.
  intros Ht Ha. destruct rel as [|c rel]; [discriminate|].
  cbn [resolveLoop]. now rewrite Ha.
Qed.

(** A resolved path resolves to itself. *)
Lemma resolve_abs_path segs :
  Forall (fun n => valid_name n = true) segs ->
  resolve cwd [abs_path segs] = abs_path segs.
Proof.
  intros Hsegs. destruct (split_abs_path_plain segs Hsegs) as (Hpl & Hk).
  unfold resolve. cbn [rev app]. rewrite resolveLoop_abs. cbn [negb].
  rewrite normalizeString_plain; rewrite split_slash_app.
  - rewrite filter_app. cbn [split_slash filter kept truthy andb].
    rewrite app_nil_r. unfold abs_path at 2. f_equal. f_equal. exact Hk.
  - apply Forall_app. split; [exact Hpl|]. constructor; [now left|constructor].
Qed.

Lemma isAbsolute_join_slash n ns :
  valid_name n = true -> isAbsolute (join_slash (n :: ns)) = false.
Proof.
  intros Hn. pose proof (valid_name_noSlash _ Hn) as Hs.
  pose proof (valid_name_truthy _ Hn) as Ht.
  destruct n as [|c n]; [discriminate|].
  simpl in Hs. apply andb_true_iff in Hs as [Hc _]. apply negb_true_iff in Hc.
  destruct ns; simpl; exact Hc.
Qed.

(** Resolving a relative path of valid names against a resolved path
    appends its segments. *)
Lemma resolve_abs_path_rel segs n ns :
  Forall (fun n => valid_name n = true) segs ->
  Forall (fun n => valid_name n = true) (n :: ns) ->
  resolve cwd [abs_path segs; join_slash (n :: ns)] = abs_path (segs ++ n :: ns).
Proof.
  intros Hsegs Hns. destruct (split_abs_path_plain segs Hsegs) as (Hpl & Hk).
  destruct (split_join_slash_plain _ Hns) as (Hpl' & Hk' & _).
  assert (Hn : valid_name n = true) by now inversion Hns.
  pose proof (join_slash_truthy n ns (valid_name_truthy _ Hn)) as Ht.
  pose proof (isAbsolute_join_slash n ns Hn) as Habs.
  unfold resolve. cbn [rev app].
  rewrite (resolveLoop_rel _ _ _ Ht Habs), resolveLoop_abs. cbn [negb].
  rewrite normalizeString_plain; rewrite !split_slash_app.
  - rewrite !filter_app. cbn [split_slash filter kept truthy andb].
    rewrite app_nil_r. unfold abs_path at 2. f_equal. f_equal.
    f_equal; [exact Hk | exact Hk'].
  - apply Forall_app. split; [exact Hpl|]. apply Forall_app. split; [exact Hpl'|].
    constructor; [now left|constructor].
Qed.

(** Resolving the self-sentinel [.] against a resolved path gives it back. *)
Lemma resolve_abs_path_dot segs :
  Forall (fun n => valid_name n = true) segs ->
  resolve cwd [abs_path segs; js "."] = abs_path segs.
Proof.
  intros Hsegs. destruct (split_abs_path_plain segs Hsegs) as (Hpl & Hk).
  unfold resolve. cbn [rev app].
  rewrite (resolveLoop_rel (js ".") _ _ eq_refl eq_refl), resolveLoop_abs. cbn [negb].
  rewrite normalizeString_plain; rewrite !split_slash_app.
  - rewrite !filter_app.
    replace (filter kept (split_slash (js "."))) with (@nil jsstring) by reflexivity.
    cbn [split_slash filter kept truthy andb app].
    rewrite app_nil_r. unfold abs_path at 2. f_equal. f_equal. exact Hk.
  - apply Forall_app. split; [exact Hpl|]. apply Forall_app. split.
    + constructor; [right; now left | constructor].
    + constructor; [now left|constructor].
Qed.

Lemma dropCommon_app (a b : list jsstring) : dropCommon a (a ++ b) = ([], b).
Proof.
  induction a as [|x a IH]; simpl.
  - now destruct b.
  - now rewrite str_eqb_refl.
Qed.

(** The relative path from a resolved path to one below it. *)
Lemma relative_abs_path segs ns :
  Forall (fun n => valid_name n = true) segs ->
  Forall (fun n => valid_name n = true) ns ->
  relative cwd (abs_path segs) (abs_path (segs ++ ns)) = join_slash ns.
Proof.
  intros Hsegs Hns.
  assert (Hall : Forall (fun n => valid_name n = true) (segs ++ ns))
    by (apply Forall_app; now split).
  unfold relative. destruct ns as [|n ns].
  - rewrite app_nil_r, str_eqb_refl. reflexivity.
  - assert (Hne : abs_path segs <> abs_path (segs ++ n :: ns)).
    { intros E. apply abs_path_inj in E; auto.
      apply (f_equal (@List.length _)) in E. rewrite length_app in E. simpl in E. lia. }
    rewrite (str_eqb_neq _ _ Hne), !resolve_abs_path, (str_eqb_neq _ _ Hne) by assumption.
    rewrite !segmentsOf_abs_path, dropCommon_app by assumption.
    reflexivity.
Qed.

Lemma relative_self p : relative cwd p p = [].
Proof. unfold relative. now rewrite str_eqb_refl. Qed.

End Resolve.

End PathFacts.

(* ===================================================================== *)
(** ** RootLocator *)
(* ===================================================================== *)

(** Induction over a directory tree: a listing has the property when the
    directories it lists have it. *)
Lemma Dir_induction (P : Dir -> Prop) :
  (forall e, P (Unreadable e)) ->
  (forall items,
      Forall (fun item => match item with
                          | EFile _ => True
                          | EDir _ sub => P sub
                          end) items ->
      P (Listing items)) ->
  forall d, P d.
Proof.
  intros Hu Hl.
  fix IH 1. intros [items | e].
  - apply Hl. induction items as [|item items IHitems].
    + constructor.
    + constructor; [|exact IHitems].
      destruct item as [n | n sub]; [exact I | apply IH].
  - apply Hu.
Qed.

Lemma findGitRoot_Listing p items :
  findGitRootInSubdirectories p (Listing items)
  = findGitRootItems findGitRootInSubdirectories p items.
Proof. reflexivity. Qed.

Lemma findGitRootItems_file recur p n rest :
  findGitRootItems recur p (EFile n :: rest) = findGitRootItems recur p rest.
Proof. reflexivity. Qed.

Lemma findGitRootItems_dir recur p n sub rest :
  findGitRootItems recur p (EDir n sub :: rest)
  = if str_eqb n marker then Ok (Some p)
    else match recur (Path.join [p; n]) sub with
         | Err e => Err e
         | Ok gitRoot =>
             if truthy_opt gitRoot then Ok gitRoot
             else findGitRootItems recur p rest
         end.
Proof. reflexivity. Qed.

(** A subtree that can be read throughout and holds no marker yields
    [null]. *)
Lemma findGitRoot_marker_free d :
  forall p, readable d = true -> marker_free d = true ->
            findGitRootInSubdirectories p d = Ok None.
Proof.
  induction d as [e | items IH] using Dir_induction; intros p Hr Hm.
  - discriminate.
  - rewrite findGitRoot_Listing. simpl in Hr, Hm.
    induction IH as [|item items Hitem _ IHitems].
    + reflexivity.
    + simpl in Hr, Hm.
      apply andb_true_iff in Hr as [Hr1 Hr2].
      apply andb_true_iff in Hm as [Hm1 Hm2].
      destruct item as [n | n sub].
      * rewrite findGitRootItems_file. now apply IHitems.
      * rewrite findGitRootItems_dir.
        apply andb_true_iff in Hm1 as [Hn Hsub].
        apply negb_true_iff in Hn. rewrite Hn.
        rewrite (Hitem _ Hr1 Hsub). simpl. now apply IHitems.
Qed.

Lemma findGitRootItems_passed_over p before rest :
  forallb passed_over before = true ->
  findGitRootItems findGitRootInSubdirectories p (before ++ rest)
  = findGitRootItems findGitRootInSubdirectories p rest.
Proof.
  induction before as [|item before IH]; intros H; [reflexivity|].
  simpl in H. apply andb_true_iff in H as [Hi Hb].
  rewrite <- app_comm_cons. destruct item as [n | n sub].
  - rewrite findGitRootItems_file. now apply IH.
  - rewrite findGitRootItems_dir. unfold passed_over in Hi.
    apply andb_true_iff in Hi as [Hi Hm]. apply andb_true_iff in Hi as [Hn Hr].
    apply negb_true_iff in Hn. rewrite Hn.
    rewrite (findGitRoot_marker_free sub _ Hr Hm). simpl. now apply IH.
Qed.

Lemma findGitRoot_descends d :
  forall p r, findGitRootInSubdirectories p d = Ok (Some r) -> descends p d r.
Proof.
  induction d as [e | items IH] using Dir_induction; intros p r H.
  - discriminate.
  - rewrite findGitRoot_Listing in H.
    enough (Hscan : forall scanned,
               (forall item, In item scanned -> In item items) ->
               findGitRootItems findGitRootInSubdirectories p scanned = Ok (Some r) ->
               descends p (Listing items) r)
      by (apply (Hscan items); auto).
    clear H. intros scanned.
    induction scanned as [|item scanned IHs]; intros Hincl H.
    + discriminate.
    + assert (Hin : In item items) by (apply Hincl; now left).
      assert (Hincl' : forall it, In it scanned -> In it items)
        by (intros it Hit; apply Hincl; now right).
      destruct item as [n | n sub].
      * rewrite findGitRootItems_file in H. now apply IHs.
      * rewrite findGitRootItems_dir in H.
        destruct (str_eqb n marker).
        -- injection H as <-. constructor.
        -- destruct (findGitRootInSubdirectories (Path.join [p; n]) sub)
             as [[g|]|e] eqn:E; simpl in H.
           ++ destruct (truthy g).
              ** injection H as <-.
                 apply descends_sub with (n := n) (sub := sub); auto.
                 rewrite Forall_forall in IH. apply (IH _ Hin). exact E.
              ** now apply IHs.
           ++ now apply IHs.
           ++ discriminate.
Qed.

(** Below a resolved path, descending along valid names only appends
    segments. *)
Lemma descends_abs_path p d r :
  descends p d r ->
  forall segs,
    p = abs_path segs ->
    Forall (fun n => valid_name n = true) segs ->
    valid_dir d = true ->
    exists ns, Forall (fun n => valid_name n = true) ns /\ r = abs_path (segs ++ ns).
Proof.
  induction 1 as [p d | p items n sub r Hin _ IH]; intros segs -> Hsegs Hv.
  - exists []. split; [constructor | now rewrite app_nil_r].
  - simpl in Hv. rewrite forallb_forall in Hv. specialize (Hv _ Hin). simpl in Hv.
    apply andb_true_iff in Hv as [Hn Hsub].
    destruct (IH (segs ++ [n])) as (ns & Hns & ->).
    + now apply PathFacts.join_abs_path.
    + apply Forall_app. split; [assumption | now constructor].
    + exact Hsub.
    + exists (n :: ns). split; [now constructor | now rewrite <- app_assoc].
Qed.

(** C1, as the code has it: the search only looks below the starting
    directory.  When the subtree of the starting directory [P] can be read
    and holds no marker directory, [locateRoot P] answers [null]
    (NotFound), whatever marker directories the ancestors of [P] list. *)
Theorem locateRoot_searches_subtree_only (fs : FileSystem) (P : jsstring) :
  readable (treeAt fs P) = true ->
  marker_free (treeAt fs P) = true ->
  locateRoot fs P = Ok None.
Proof. intros Hr Hm. unfold locateRoot. now apply findGitRoot_marker_free. Qed.

(** The scenario of the specification: [/repo/.git] exists and
    [/repo/src/app] holds no [.git]; the search from [/repo/src/app]
    answers [null]. *)
Lemma locateRoot_searches_subtree_only_witness :
  only_marker_above fs_repo [js "repo"] [js "src"; js "app"] = true /\
  locateRoot fs_repo (js "/repo/src/app") = Ok None.
Proof.
  split; [reflexivity|].
  apply (locateRoot_searches_subtree_only fs_repo (js "/repo/src/app"));
    reflexivity.
Defined.

(** C1 as stated fails: [/repo] is the only directory above
    [/repo/src/app] listing a marker, the subtree of [/repo/src/app] holds
    none, and [locateRoot "/repo/src/app"] is [null], not [/repo]. *)
Lemma locateRoot_ancestor_counterexample :
  only_marker_above fs_repo [js "repo"] [js "src"; js "app"] = true /\
  abs_path ([js "repo"] ++ [js "src"; js "app"]) = js "/repo/src/app" /\
  abs_path [js "repo"] = js "/repo" /\
  marker_free (treeAt fs_repo (js "/repo/src/app")) = true /\
  locateRoot fs_repo (js "/repo/src/app") = Ok None /\
  locateRoot fs_repo (js "/repo/src/app") <> Ok (Some (js "/repo")).
Proof. repeat split; try reflexivity. discriminate. Qed.

(** C2, as the code has it: a starting directory that lists a [.git]
    directory is returned as the root when every directory listed before
    the [.git] entry can be read throughout and holds no marker; the
    entries listed after it are not visited. *)
Theorem locateRoot_marker_child (fs : FileSystem) (P : jsstring)
  (before after : list Entry) (sub : Dir) :
  treeAt fs P = Listing (before ++ EDir marker sub :: after) ->
  forallb passed_over before = true ->
  locateRoot fs P = Ok (Some P).
Proof.
  intros Ht Hb. unfold locateRoot. rewrite Ht, findGitRoot_Listing.
  rewrite findGitRootItems_passed_over by exact Hb.
  rewrite findGitRootItems_dir. now rewrite str_eqb_refl.
Qed.

Lemma locateRoot_marker_child_witness :
  locateRoot fs_late (js "/w") = Ok (Some (js "/w")).
Proof.
  apply (locateRoot_marker_child fs_late (js "/w")
           [file "a.txt"; dir "docs" [dir "api" []]]
           [EDir (js "vault") (Unreadable (JsError (js "EACCES: permission denied")))]
           (Listing []));
    reflexivity.
Defined.

(** C2 as stated fails: [/w] lists a [.git] directory, but [.cache],
    listed before it, holds the nested root [/w/.cache/dep], and that is
    what the search returns. *)
Lemma locateRoot_marker_child_counterexample :
  marker_at fs_nested (js "/w") = true /\
  locateRoot fs_nested (js "/w") = Ok (Some (js "/w/.cache/dep")) /\
  locateRoot fs_nested (js "/w") <> Ok (Some (js "/w")).
Proof. repeat split; try reflexivity. discriminate. Qed.

(** C10: a path returned by the search is the starting directory or is
    obtained from it by joining the names of a chain of listed
    subdirectories; for a resolved starting path and valid names it
    extends the starting path, and is no proper ancestor of it. *)
Theorem locateRoot_descends (fs : FileSystem) (P r : jsstring) :
  locateRoot fs P = Ok (Some r) ->
  descends P (treeAt fs P) r /\
  (forall segs,
      P = abs_path segs ->
      Forall (fun n => valid_name n = true) segs ->
      valid_dir (treeAt fs P) = true ->
      (exists ns, Forall (fun n => valid_name n = true) ns /\
                  r = abs_path (segs ++ ns)) /\
      ~ proper_ancestor r P).
Proof.
  intros H. apply findGitRoot_descends in H. split; [exact H|].
  intros segs HP Hsegs Hv.
  destruct (descends_abs_path _ _ _ H segs HP Hsegs Hv) as (ns & Hns & Hr).
  split; [now exists ns|].
  intros (sa & ms & Hall & Hms & Ha & Hp).
  apply Forall_app in Hall as Hsplit. destruct Hsplit as [Hsa _].
  subst r P. 
  apply PathFacts.abs_path_inj in Hp; [|assumption|assumption].
  apply PathFacts.abs_path_inj in Ha;
    [|apply Forall_app; now split|assumption].
  apply (f_equal (@List.length _)) in Hp, Ha.
  rewrite !length_app in *. destruct ms; [contradiction|]. simpl in *. lia.
Qed.

Lemma locateRoot_descends_witness :
  descends (js "/") (treeAt fs_repo (js "/")) (js "/repo") /\
  (forall segs,
      js "/" = abs_path segs ->
      Forall (fun n => valid_name n = true) segs ->
      valid_dir (treeAt fs_repo (js "/")) = true ->
      (exists ns, Forall (fun n => valid_name n = true) ns /\
                  js "/repo" = abs_path (segs ++ ns)) /\
      ~ proper_ancestor (js "/repo") (js "/")).
Proof.
  apply (locateRoot_descends fs_repo (js "/") (js "/repo")). reflexivity.
Defined.

(* ===================================================================== *)
(** ** TopologyBuilder *)
(* ===================================================================== *)

Lemma map_flat_map {A B C} (f : B -> C) (g : A -> list B) (l : list A) :
  map f (flat_map g l) = flat_map (fun x => map f (g x)) l.
Proof.
  induction l as [|x l IH]; simpl; [reflexivity|].
  now rewrite map_app, IH.
Qed.

Lemma list_sum_snoc l n : list_sum (l ++ [n]) = list_sum l + n.
Proof. rewrite list_sum_app. simpl. lia. Qed.

Section Topology.

Variables cwd basePath : jsstring.

Lemma label_ok_at segs ns t :
  basePath = abs_path segs ->
  Forall (fun n => valid_name n = true) (segs ++ ns) ->
  path t = abs_path (segs ++ ns) ->
  name t = or_else (Path.relative cwd basePath (abs_path (segs ++ ns))) (js ".") ->
  label_ok cwd basePath t.
Proof.
  intros Hb Hall Hp Hn. apply Forall_app in Hall as [Hsegs Hns].
  unfold label_ok. rewrite Hn, Hp, Hb.
  rewrite PathFacts.relative_abs_path by assumption.
  destruct ns as [|n ns].
  - rewrite app_nil_r. apply PathFacts.resolve_abs_path_dot. exact Hsegs.
  - unfold or_else. rewrite PathFacts.join_slash_truthy.
    + now apply PathFacts.resolve_abs_path_rel.
    + apply PathFacts.valid_name_truthy. now inversion Hns.
Qed.

Lemma hierarchyItems_built p items :
  Forall (fun item =>
            match item with
            | EFile _ => True
            | EDir _ sub =>
                forall q, readable sub = true ->
                          exists t, getDirectoryHierarchy cwd q basePath sub = Ok t
                                    /\ built cwd basePath q sub t
            end) items ->
  forallb readable_item items = true ->
  forall acc,
  exists new,
    getDirectoryHierarchyItems
      (fun itemPath sub => getDirectoryHierarchy cwd itemPath basePath sub) p items acc
    = Ok (acc ++ new) /\
    list_sum (map count_nodes new) = list_sum (map count_item items) /\
    flat_map (fun t => map path (nodes t)) new = flat_map (paths_item p) items /\
    (forall segs ns,
        basePath = abs_path segs -> p = abs_path (segs ++ ns) ->
        Forall (fun n => valid_name n = true) (segs ++ ns) ->
        forallb valid_item items = true ->
        Forall (label_ok cwd basePath) (flat_map nodes new)).
Proof.
  induction 1 as [|item items Hitem _ IH]; intros Hr acc.
  - exists []. rewrite app_nil_r. repeat split; auto.
  - simpl in Hr. apply andb_true_iff in Hr as [Hr1 Hr2].
    destruct item as [n | n sub].
    + destruct (IH Hr2 acc) as (new & Hloop & Hc & Hp & Hl).
      exists new. split; [exact Hloop|]. split; [exact Hc|]. split; [exact Hp|].
      intros segs ns Hb Hq Hall Hv. simpl in Hv. now apply (Hl segs ns).
    + destruct (Hitem (Path.join [p; n]) Hr1) as (t & Ht & Hbuilt).
      destruct (IH Hr2 (acc ++ [t])) as (new & Hloop & Hc & Hp & Hl).
      exists (t :: new). 
      destruct Hbuilt as (Hpath & Hname & Hcount & Hpaths & Hlabels).
      split; [|split; [|split]].
      * cbn [getDirectoryHierarchyItems entry_name]. rewrite Ht.
        cbn [getDirectoryHierarchyItems] in Hloop. rewrite Hloop.
        now rewrite <- app_assoc.
      * simpl. now rewrite Hc, Hcount.
      * simpl. now rewrite Hp, Hpaths.
      * intros segs ns Hb Hq Hall Hv. simpl in Hv.
        apply andb_true_iff in Hv as [Hv1 Hv2].
        apply andb_true_iff in Hv1 as [Hn Hsub].
        cbn [flat_map]. apply Forall_app. split.
        -- apply (Hlabels segs (ns ++ [n])); auto.
           ++ rewrite Hq, app_assoc. apply PathFacts.join_abs_path; auto.
           ++ rewrite app_assoc. apply Forall_app. split; auto.
        -- now apply (Hl segs ns).
Qed.

Lemma getDirectoryHierarchy_built d :
  forall p, readable d = true ->
            exists t, getDirectoryHierarchy cwd p basePath d = Ok t /\ built cwd basePath p d t.
Proof.
  induction d as [e | items IH] using Dir_induction; intros p Hr.
  - discriminate.
  - simpl in Hr.
    destruct (hierarchyItems_built p items IH Hr []) as (new & Hloop & Hc & Hp & Hl).
    simpl in Hloop.
    exists (mkDirectoryInfo (or_else (Path.relative cwd basePath p) (js ".")) p new).
    split.
    + cbn [getDirectoryHierarchy]. now rewrite Hloop.
    + unfold built. split; [reflexivity|]. split; [reflexivity|].
      split; [|split].
      * simpl. f_equal. rewrite Hc. reflexivity.
      * cbn [nodes map path dir_paths]. f_equal.
        rewrite map_flat_map. exact Hp.
      * intros segs ns Hb Hq Hall Hv. cbn [nodes]. constructor.
        -- apply (label_ok_at segs ns); auto. simpl. now rewrite Hq.
        -- apply (Hl segs ns); auto.
Qed.

End Topology.

Lemma has_marker_In items :
  has_marker items = true -> exists sub, In (EDir marker sub) items.
Proof.
  unfold has_marker. intros H. apply existsb_exists in H as (item & Hin & Hm).
  destruct item as [n | n sub]; [discriminate|].
  simpl in Hm. apply str_eqb_eq in Hm. subst n. now exists sub.
Qed.

Lemma dir_paths_head p d : exists rest, dir_paths p d = p :: rest.
Proof. destruct d; simpl; eauto. Qed.

Lemma dir_paths_child p items n sub :
  In (EDir n sub) items ->
  In (Path.join [p; n]) (dir_paths p (Listing items)).
Proof.
  intros Hin. cbn [dir_paths]. right. apply in_flat_map.
  exists (EDir n sub). split; [exact Hin|].
  destruct (dir_paths_head (Path.join [p; n]) sub) as (rest & ->). now left.
Qed.

(** C7: for a root whose tree can be read, [buildTopology] produces a
    tree with one node per directory below the root (root and marker
    directory included) and none for other entries: the node paths are
    the directory paths, in listing order.  The root is labelled [.], and
    for a resolved root and valid names every label, resolved against the
    root, is the node's path. *)
Theorem buildTopology_mirrors (fs : FileSystem) (root : jsstring) :
  readable (treeAt fs root) = true ->
  exists t,
    buildTopology fs root = Ok t /\
    count_nodes t = count_dirs (treeAt fs root) /\
    map path (nodes t) = dir_paths root (treeAt fs root) /\
    name t = js "." /\
    (forall items,
        treeAt fs root = Listing items -> has_marker items = true ->
        In (Path.join [root; marker]) (map path (nodes t))) /\
    (forall segs,
        root = abs_path segs ->
        Forall (fun n => valid_name n = true) segs ->
        valid_dir (treeAt fs root) = true ->
        Forall (fun node => Path.resolve (fs_cwd fs) [root; name node] = path node)
          (nodes t)).
Proof.
  intros Hr.
  destruct (getDirectoryHierarchy_built (fs_cwd fs) root (treeAt fs root) root Hr)
    as (t & Ht & Hpath & Hname & Hcount & Hpaths & Hlabels).
  exists t. split; [exact Ht|]. split; [exact Hcount|]. split; [exact Hpaths|].
  split; [|split].
  - rewrite Hname, PathFacts.relative_self. reflexivity.
  - intros items Hitems Hm. rewrite Hpaths, Hitems.
    destruct (has_marker_In items Hm) as (sub & Hin).
    now apply dir_paths_child with (sub := sub).
  - intros segs Hroot Hsegs Hv.
    apply (Hlabels segs []); auto; now rewrite app_nil_r.
Qed.

Lemma buildTopology_mirrors_witness :
  exists t,
    buildTopology fs_repo (js "/repo") = Ok t /\
    count_nodes t = 5 /\
    map path (nodes t)
    = [js "/repo"; js "/repo/.git"; js "/repo/.git/objects";
       js "/repo/src"; js "/repo/src/app"] /\
    name t = js "." /\
    In (js "/repo/.git") (map path (nodes t)) /\
    Forall (fun node => Path.resolve (js "/") [js "/repo"; name node] = path node)
      (nodes t).
Proof.
  destruct (buildTopology_mirrors fs_repo (js "/repo") eq_refl)
    as (t & Ht & Hc & Hp & Hn & Hm & Hl).
  exists t. split; [exact Ht|]. split; [exact Hc|]. split; [exact Hp|].
  split; [exact Hn|]. split.
  - apply (Hm _ eq_refl). reflexivity.
  - apply (Hl [js "repo"]); [reflexivity | | reflexivity].
    constructor; [reflexivity | constructor].
Defined.

(* ===================================================================== *)
(** ** ConfigUrlExtractor *)
(* ===================================================================== *)

Module Regex.

Lemma repeatMatcher_le (m : Matcher) :
  (forall s caps k x,
      m s caps k = Some x ->
      exists s1 caps1, length s1 <= length s /\ k s1 caps1 = Some x) ->
  forall fuel s caps k x,
    repeatMatcher m fuel s caps k = Some x ->
    exists s1 caps1, length s1 <= length s /\ k s1 caps1 = Some x.
Proof.
  intros Hm. induction fuel as [|fuel IH]; intros s caps k x H; simpl in H.
  - exists s, caps. auto.
  - match type of H with
    | match ?e with _ => _ end = _ => destruct e as [r|] eqn:E
    end.
    + injection H as ->. apply Hm in E as (s1 & caps1 & Hle & Hk).
      destruct (length s1 <? length s) eqn:Hlt; [|discriminate].
      apply IH in Hk as (s2 & caps2 & Hle2 & Hk2).
      exists s2, caps2. split; [lia | exact Hk2].
    + exists s, caps. auto.
Qed.

(** A match never reads backwards: the continuation is entered on a
    suffix of the input. *)
Lemma matcher_le r :
  forall s caps k x,
    matcher r s caps k = Some x ->
    exists s1 caps1, length s1 <= length s /\ k s1 caps1 = Some x.
Proof.
  induction r as [c | p | r1 IH1 r2 IH2 | r1 IH1 | r1 IH1];
    intros s caps k x H; simpl in H.
  - destruct s as [|y s]; [discriminate|].
    destruct (N.eqb y c); [|discriminate].
    exists s, caps. simpl. split; [lia | exact H].
  - destruct s as [|y s]; [discriminate|].
    destruct (p y); [|discriminate].
    exists s, caps. simpl. split; [lia | exact H].
  - apply IH1 in H as (s1 & caps1 & Hle1 & H).
    apply IH2 in H as (s2 & caps2 & Hle2 & H).
    exists s2, caps2. split; [lia | exact H].
  - eapply repeatMatcher_le; eauto.
  - apply IH1 in H as (s1 & caps1 & Hle1 & H). eauto.
Qed.

Lemma urlPattern_eq :
  urlPattern = Seq (Char 117%N) (Seq (Char 114%N) (Seq (Char 108%N) afterKey)).
Proof. reflexivity. Qed.

Lemma matcher_Char_Seq c r x s caps k :
  matcher (Seq (Char c) r) (x :: s) caps k
  = if N.eqb x c then matcher r s caps k else None.
Proof. reflexivity. Qed.

Lemma matcher_urlPattern s caps k :
  matcher urlPattern s caps k
  = match stripPrefix (js "url") s with
    | Some r => matcher afterKey r caps k
    | None => None
    end.
Proof.
  rewrite urlPattern_eq. change (js "url") with [117; 114; 108]%N.
  destruct s as [|a s]; [reflexivity|].
  rewrite matcher_Char_Seq. cbn [stripPrefix]. rewrite (N.eqb_sym 117%N a).
  destruct (N.eqb a 117%N); [|reflexivity].
  destruct s as [|b s]; [reflexivity|].
  rewrite matcher_Char_Seq. cbn [stripPrefix]. rewrite (N.eqb_sym 114%N b).
  destruct (N.eqb b 114%N); [|reflexivity].
  destruct s as [|c s]; [reflexivity|].
  rewrite matcher_Char_Seq. cbn [stripPrefix]. rewrite (N.eqb_sym 108%N c).
  destruct (N.eqb c 108%N); reflexivity.
Qed.

Lemma stripPrefix_Some p : forall s r, stripPrefix p s = Some r -> s = p ++ r.
Proof.
  induction p as [|x p IH]; intros s r H; simpl in H.
  - now injection H as ->.
  - destruct s as [|y s]; [discriminate|].
    destruct (N.eqb_spec x y); [|discriminate].
    subst y. simpl. f_equal. now apply IH.
Qed.

Lemma stripPrefix_app p r : stripPrefix p (p ++ r) = Some r.
Proof. induction p as [|x p IH]; simpl; [reflexivity|]. now rewrite N.eqb_refl. Qed.

(** A successful match of [urlPattern] consumes input and sets the group. *)
Lemma matcher_urlPattern_progress s rest caps :
  matcher urlPattern s None k0 = Some (rest, caps) ->
  length rest < length s /\ exists m1, caps = Some m1.
Proof.
  rewrite matcher_urlPattern. intros H.
  destruct (stripPrefix (js "url") s) as [r|] eqn:E; [|discriminate].
  apply stripPrefix_Some in E. subst s.
  unfold afterKey in H. cbn [matcher] in H.
  apply (repeatMatcher_le (matcher (Class isSpace)) (matcher_le (Class isSpace))) in H
    as (s1 & c1 & Hle1 & H).
  destruct s1 as [|y s1]; [discriminate|].
  destruct (N.eqb y equals_sign); [|discriminate].
  apply (repeatMatcher_le (matcher (Class isSpace)) (matcher_le (Class isSpace))) in H
    as (s2 & c2 & Hle2 & H).
  apply matcher_le in H as (s3 & c3 & Hle3 & H).
  unfold k0 in H. injection H as <- <-.
  split; [|eauto]. rewrite length_app. simpl in *. lia.
Qed.

Lemma exec_progress s : forall rest caps,
  exec urlPattern s = Some (rest, caps) ->
  length rest < length s /\ exists m1, caps = Some m1.
Proof.
  induction s as [|c s IH]; intros rest caps H.
  - simpl in H. discriminate.
  - cbn [exec] in H. fold k0 in H.
    destruct (matcher urlPattern (c :: s) None k0) as [[rest' caps']|] eqn:E.
    + injection H as -> ->. now apply matcher_urlPattern_progress.
    + apply IH in H as [Hlt Hc]. split; [simpl; lia | exact Hc].
Qed.

End Regex.

Module Extractor.
Import Regex.

(** With more fuel than code units, the loop ends with the array. *)
Lemma extractUrlsLoop_done :
  forall n s fuel urls,
    length s <= n -> length s < fuel ->
    extractUrlsLoop fuel s urls = Done (urls ++ extractUrlsFromConfig s).
Proof.
  induction n as [|n IH]; intros s fuel urls Hn Hfuel.
  - destruct s; [|simpl in Hn; lia].
    destruct fuel as [|fuel]; [simpl in Hfuel; lia|].
    change (extractUrlsFromConfig []) with (@nil jsstring).
    now rewrite app_nil_r.
  - destruct fuel as [|fuel]; [lia|].
    unfold extractUrlsFromConfig, extractUrlsRun.
    cbn [extractUrlsLoop].
    destruct (exec urlPattern s) as [[rest caps]|] eqn:E.
    + apply exec_progress in E as [Hlt [m1 ->]].
      rewrite (IH rest fuel (urls ++ [trim m1])) by lia.
      rewrite (IH rest (length s) ([] ++ [trim m1])) by lia.
      now rewrite <- app_assoc.
    + now rewrite app_nil_r.
Qed.

(** The loop of [extractUrlsFromConfig] always ends, and with the array
    that [extractUrlsFromConfig] stands for. *)
Lemma extractUrlsRun_done configContent :
  extractUrlsRun configContent = Done (extractUrlsFromConfig configContent).
Proof.
  unfold extractUrlsRun.
  now rewrite (extractUrlsLoop_done (length configContent)) by lia.
Qed.

(** One turn of the loop. *)
Lemma extractUrls_unfold s :
  extractUrlsFromConfig s
  = match exec urlPattern s with
    | Some (rest, Some m1) => trim m1 :: extractUrlsFromConfig rest
    | _ => []
    end.
Proof.
  unfold extractUrlsFromConfig at 1. unfold extractUrlsRun.
  cbn [extractUrlsLoop].
  destruct (exec urlPattern s) as [[rest [m1|]]|] eqn:E; try reflexivity.
  apply exec_progress in E as [Hlt _].
  now rewrite (extractUrlsLoop_done (length rest)) by lia.
Qed.

Lemma extractUrls_exec_ext s s' :
  exec urlPattern s = exec urlPattern s' ->
  extractUrlsFromConfig s = extractUrlsFromConfig s'.
Proof. intros E. rewrite (extractUrls_unfold s), (extractUrls_unfold s'). now rewrite E. Qed.

(** *** Greedy repetition of a character class *)

Lemma matcher_Star_nil p caps k :
  matcher (Star (Class p)) [] caps k = k [] caps.
Proof. reflexivity. Qed.

Lemma matcher_Star_cons p c s caps k :
  matcher (Star (Class p)) (c :: s) caps k
  = if p c then
      match matcher (Star (Class p)) s caps k with
      | Some x => Some x
      | None => k (c :: s) caps
      end
    else k (c :: s) caps.
Proof.
  cbn [matcher length repeatMatcher]. destruct (p c); [|reflexivity].
  assert (Hlt : (length s <? S (length s)) = true) by (apply Nat.ltb_lt; lia).
  now rewrite Hlt.
Qed.

Lemma matcher_Star_stops p tail caps k :
  stops p tail -> matcher (Star (Class p)) tail caps k = k tail caps.
Proof.
  destruct tail as [|c tail]; intros H; [reflexivity|].
  rewrite matcher_Star_cons. simpl in H. now rewrite H.
Qed.

(** The longest run is tried first. *)
Lemma matcher_Star_greedy p ws tail caps k x :
  forallb p ws = true -> stops p tail ->
  k tail caps = Some x ->
  matcher (Star (Class p)) (ws ++ tail) caps k = Some x.
Proof.
  intros Hws Hstop Hk. induction ws as [|c ws IH]; simpl app.
  - now rewrite matcher_Star_stops.
  - simpl in Hws. apply andb_true_iff in Hws as [Hc Hws].
    rewrite matcher_Star_cons, Hc, (IH Hws). reflexivity.
Qed.

(** When what follows fails after every part of the run, so does the
    repetition. *)
Lemma matcher_Star_fail p ws tail caps k :
  forallb p ws = true -> stops p tail ->
  (forall pre suf, ws = pre ++ suf -> k (suf ++ tail) caps = None) ->
  matcher (Star (Class p)) (ws ++ tail) caps k = None.
Proof.
  intros Hws Hstop. induction ws as [|c ws IH]; intros Hk; simpl app.
  - rewrite matcher_Star_stops by exact Hstop. apply (Hk [] []). reflexivity.
  - simpl in Hws. apply andb_true_iff in Hws as [Hc Hws].
    rewrite matcher_Star_cons, Hc, (IH Hws).
    + apply (Hk [] (c :: ws)). reflexivity.
    + intros pre suf ->. apply (Hk (c :: pre) suf). reflexivity.
Qed.

Lemma dropWhile_split p s :
  exists ws, s = ws ++ dropWhile p s /\ forallb p ws = true /\ stops p (dropWhile p s).
Proof.
  induction s as [|c s IH]; simpl.
  - exists []. repeat split.
  - destruct (p c) eqn:Hc.
    + destruct IH as (ws & Hs & Hws & Hstop).
      exists (c :: ws). simpl. rewrite Hc, Hws. repeat split; auto.
      now rewrite <- Hs.
    + exists []. simpl. repeat split; auto.
Qed.

Lemma dropWhile_app_stops p ws tail :
  forallb p ws = true -> stops p tail -> dropWhile p (ws ++ tail) = tail.
Proof.
  intros Hws Hstop. induction ws as [|c ws IH]; simpl.
  - destruct tail as [|c tail]; [reflexivity|]. simpl in *. now rewrite Hstop.
  - simpl in Hws. apply andb_true_iff in Hws as [Hc Hws]. rewrite Hc. now apply IH.
Qed.

Lemma firstn_length_app (X tail : jsstring) :
  firstn (length (X ++ tail) - length tail) (X ++ tail) = X.
Proof.
  rewrite length_app. replace (length X + length tail - length tail) with (length X) by lia.
  rewrite firstn_app, Nat.sub_diag, firstn_all. simpl. now rewrite app_nil_r.
Qed.

End Extractor.

Module ExtractorLines.
Import Regex Extractor.

Lemma matcher_Seq r1 r2 s caps k :
  matcher (Seq r1 r2) s caps k
  = matcher r1 s caps (fun s1 caps1 => matcher r2 s1 caps1 k).
Proof. reflexivity. Qed.

Lemma isSpace_not c d :
  isSpace d = false -> isSpace c = true -> N.eqb c d = false.
Proof.
  intros Hd Hc. destruct (N.eqb_spec c d) as [->|]; [|reflexivity].
  rewrite Hd in Hc. discriminate.
Qed.

Lemma isLineTerminator_isSpace t : isLineTerminator t = true -> isSpace t = true.
Proof. intros H. unfold isSpace. rewrite H. apply orb_true_r. Qed.

Lemma line_end_stops tail : line_end tail -> stops anyChar tail.
Proof.
  destruct tail as [|t tail]; intros H; [exact I|].
  simpl in *. unfold anyChar. now rewrite H.
Qed.

Lemma matcher_urlPattern_not_u c s caps k :
  N.eqb c 117%N = false -> matcher urlPattern (c :: s) caps k = None.
Proof. intros H. now rewrite urlPattern_eq, matcher_Char_Seq, H. Qed.

Lemma exec_skip c s :
  matcher urlPattern (c :: s) None k0 = None ->
  exec urlPattern (c :: s) = exec urlPattern s.
Proof. intros H. cbn [exec]. fold k0. now rewrite H. Qed.

Lemma exec_skip_spaces ws s :
  forallb isSpace ws = true -> exec urlPattern (ws ++ s) = exec urlPattern s.
Proof.
  induction ws as [|c ws IH]; intros H; [reflexivity|].
  simpl in H. apply andb_true_iff in H as [Hc Hws].
  simpl app. rewrite exec_skip; [now apply IH|].
  apply matcher_urlPattern_not_u. now apply isSpace_not.
Qed.

Lemma exec_line_end tail :
  line_end tail ->
  exec urlPattern tail = match tail with [] => None | _ :: T => exec urlPattern T end.
Proof.
  destruct tail as [|t T]; intros H; [reflexivity|].
  apply exec_skip, matcher_urlPattern_not_u.
  apply isSpace_not; [reflexivity | now apply isLineTerminator_isSpace].
Qed.

(** The pattern on [url], whitespace, [=], whitespace and a value that
    runs to the end of the line. *)
Lemma matcher_url_line ws2 ws3 x X tail :
  forallb isSpace ws2 = true -> forallb isSpace ws3 = true ->
  isSpace x = false -> forallb anyChar (x :: X) = true ->
  line_end tail ->
  matcher urlPattern (js "url" ++ ws2 ++ equals_sign :: ws3 ++ (x :: X) ++ tail) None k0
  = Some (tail, Some (x :: X)).
Proof.
  intros H2 H3 Hx HX Hend.
  rewrite matcher_urlPattern, stripPrefix_app.
  unfold afterKey. rewrite matcher_Seq.
  apply matcher_Star_greedy; [exact H2 | reflexivity |].
  rewrite matcher_Char_Seq, N.eqb_refl.
  unfold afterEq. rewrite matcher_Seq.
  apply matcher_Star_greedy; [exact H3 | exact Hx |].
  simpl in HX. apply andb_true_iff in HX as [Hax HaX].
  cbn [matcher Plus app]. rewrite Hax.
  change (repeatMatcher (matcher (Class anyChar)) (length (X ++ tail)) (X ++ tail))
    with (matcher (Star (Class anyChar)) (X ++ tail)).
  apply matcher_Star_greedy; [exact HaX | now apply line_end_stops |].
  unfold k0. change (x :: X ++ tail) with ((x :: X) ++ tail).
  now rewrite (firstn_length_app (x :: X) tail).
Qed.

Lemma stripPrefix_cons x p y s :
  stripPrefix (x :: p) (y :: s) = if N.eqb x y then stripPrefix p s else None.
Proof. reflexivity. Qed.

Lemma stripPrefix_url_app l tail :
  line_end tail ->
  stripPrefix (js "url") (l ++ tail)
  = match stripPrefix (js "url") l with
    | Some r => Some (r ++ tail)
    | None => None
    end.
Proof.
  intros Hend. change (js "url") with [117; 114; 108]%N.
  assert (Htail : forall c p, isSpace c = false ->
                              stripPrefix (c :: p) tail = None).
  { intros c p Hc. destruct tail as [|t tail]; [reflexivity|].
    simpl in Hend. cbn [stripPrefix]. rewrite N.eqb_sym.
    rewrite (isSpace_not t c Hc (isLineTerminator_isSpace t Hend)). reflexivity. }
  destruct l as [|a l]; [cbn [app]; now rewrite Htail|].
  rewrite <- app_comm_cons, !stripPrefix_cons.
  destruct (N.eqb 117 a); [|reflexivity].
  destruct l as [|b l]; [cbn [app]; now rewrite Htail|].
  rewrite <- app_comm_cons, !stripPrefix_cons.
  destruct (N.eqb 114 b); [|reflexivity].
  destruct l as [|c l]; [cbn [app]; now rewrite Htail|].
  rewrite <- app_comm_cons, !stripPrefix_cons.
  destruct (N.eqb 108 c); reflexivity.
Qed.

(** Where no key stands, the pattern does not match. *)
Lemma matcher_no_key l tail :
  key_here l = false -> line_end tail ->
  matcher urlPattern (l ++ tail) None k0 = None.
Proof.
  intros Hkey Hend. rewrite matcher_urlPattern, (stripPrefix_url_app l tail Hend).
  unfold key_here in Hkey.
  destruct (stripPrefix (js "url") l) as [r|]; [|reflexivity].
  destruct (dropWhile_split isSpace r) as (ws & Hr & Hws & Hstop).
  destruct (dropWhile isSpace r) as [|c r']; [discriminate|].
  simpl in Hstop. rewrite Hr, <- app_assoc.
  unfold afterKey. rewrite matcher_Seq.
  apply matcher_Star_fail; [exact Hws | exact Hstop |].
  intros pre suf Hsplit. destruct suf as [|w suf].
  - simpl app. now rewrite matcher_Char_Seq, Hkey.
  - simpl app. rewrite matcher_Char_Seq.
    replace (N.eqb w equals_sign) with false; [reflexivity|].
    symmetry. apply isSpace_not; [reflexivity|].
    rewrite Hsplit, forallb_app in Hws. apply andb_true_iff in Hws as [_ Hsuf].
    simpl in Hsuf. now apply andb_true_iff in Hsuf as [Hw _].
Qed.

(** A line without key is passed over. *)
Lemma exec_no_key_line l tail :
  has_key l = false -> line_end tail ->
  exec urlPattern (l ++ tail) = exec urlPattern tail.
Proof.
  intros Hkey Hend. induction l as [|c l IH]; [reflexivity|].
  simpl in Hkey. apply orb_false_iff in Hkey as [Hhere Hrest].
  simpl app. rewrite exec_skip.
  - now apply IH.
  - now apply (matcher_no_key (c :: l) tail).
Qed.

(** The parts of a line of the form [url = X]. *)
Lemma url_value_parts line X :
  url_value line = Some X ->
  exists ws1 ws2 ws3,
    line = ws1 ++ js "url" ++ ws2 ++ equals_sign :: ws3 ++ X /\
    forallb isSpace ws1 = true /\ forallb isSpace ws2 = true /\
    forallb isSpace ws3 = true /\ stops isSpace X.
Proof.
  unfold url_value, trimStart. intros H.
  destruct (dropWhile_split isSpace line) as (ws1 & Hl & H1 & _).
  destruct (stripPrefix (js "url") (dropWhile isSpace line)) as [r1|] eqn:E1;
    [|discriminate].
  apply stripPrefix_Some in E1.
  destruct (dropWhile_split isSpace r1) as (ws2 & Hr1 & H2 & _).
  destruct (dropWhile isSpace r1) as [|c r2]; [discriminate|].
  destruct (N.eqb_spec c equals_sign) as [->|]; [|discriminate].
  injection H as <-.
  destruct (dropWhile_split isSpace r2) as (ws3 & Hr2 & H3 & Hstop).
  exists ws1, ws2, ws3. repeat split; auto.
  rewrite Hl at 1. rewrite E1. rewrite Hr1 at 1. rewrite Hr2 at 1. reflexivity.
Qed.

(** On a line of the form [url = X], [exec] captures [X], and the next
    search starts at the end of the line. *)
Lemma exec_url_line line X tail :
  url_value line = Some X -> truthy X = true ->
  forallb anyChar line = true -> line_end tail ->
  exec urlPattern (line ++ tail) = Some (tail, Some X) /\ trim X = trimEnd X.
Proof.
  intros Hv Ht Hany Hend.
  destruct (url_value_parts line X Hv) as (ws1 & ws2 & ws3 & -> & H1 & H2 & H3 & Hstop).
  destruct X as [|x X]; [discriminate|]. simpl in Hstop.
  split.
  - rewrite <- app_assoc, exec_skip_spaces by exact H1.
    assert (HaX : forallb anyChar (x :: X) = true).
    { rewrite !forallb_app in Hany.
      apply andb_true_iff in Hany as [_ Hany].
      apply andb_true_iff in Hany as [_ Hany].
      apply andb_true_iff in Hany as [_ Hany].
      cbn [forallb] in Hany. apply andb_true_iff in Hany as [_ Hany].
      rewrite forallb_app in Hany. now apply andb_true_iff in Hany as [_ Hany]. }
    pose proof (matcher_url_line ws2 ws3 x X tail H2 H3 Hstop HaX Hend) as Hm.
    replace ((js "url" ++ ws2 ++ equals_sign :: ws3 ++ x :: X) ++ tail)
      with (js "url" ++ ws2 ++ equals_sign :: ws3 ++ (x :: X) ++ tail).
    + change (js "url") with [117%N; 114%N; 108%N] in *.
      cbn [app] in *. cbn [exec]. fold k0. now rewrite Hm.
    + rewrite <- !app_assoc. cbn [app]. rewrite <- !app_assoc. reflexivity.
  - unfold trim, trimStart. simpl. now rewrite Hstop.
Qed.

Lemma spec_extractUrls_length lines :
  length (spec_extractUrls lines) = count_url_lines lines.
Proof.
  unfold spec_extractUrls, count_url_lines.
  induction lines as [|l lines IH]; simpl; [reflexivity|].
  destruct (url_value l); simpl; now rewrite IH.
Qed.

(** One plain line, then the rest of the text. *)
Lemma extractUrls_one_line line tail :
  plain_line line = true -> line_end tail ->
  extractUrlsFromConfig (line ++ tail)
  = spec_extractUrls [line]
    ++ extractUrlsFromConfig (match tail with [] => [] | _ :: T => T end).
Proof.
  intros Hp Hend. unfold plain_line in Hp. apply andb_true_iff in Hp as [Hany Hp].
  unfold spec_extractUrls. cbn [flat_map]. rewrite app_nil_r.
  destruct (url_value line) as [X|] eqn:Hv.
  - destruct (exec_url_line line X tail Hv Hp Hany Hend) as [Hexec Htrim].
    rewrite extractUrls_unfold, Hexec, Htrim. cbn [app]. f_equal.
    apply extractUrls_exec_ext. rewrite (exec_line_end tail Hend).
    now destruct tail.
  - apply negb_true_iff in Hp. cbn [app].
    apply extractUrls_exec_ext.
    rewrite (exec_no_key_line line tail Hp Hend), (exec_line_end tail Hend).
    now destruct tail.
Qed.

End ExtractorLines.

(** C3, as the code has it: on a text made of lines that hold no line
    terminator, each of them either of the form [url = X] with [X] not
    empty or without any [url] that is followed, after optional
    whitespace, by [=] or by the end of the line, the loop ends and
    returns one value per line of the form [url = X], in order, each
    trimmed of trailing whitespace, duplicates included. *)
Theorem extractUrls_plain_lines (ls : list (jsstring * code_unit)) (final : jsstring) :
  Forall (fun lt => plain_line (fst lt) = true /\ isLineTerminator (snd lt) = true) ls ->
  plain_line final = true ->
  extractUrlsRun (text_of ls final) = Done (spec_extractUrls (map fst ls ++ [final])) /\
  extractUrlsFromConfig (text_of ls final) = spec_extractUrls (map fst ls ++ [final]) /\
  length (extractUrlsFromConfig (text_of ls final))
  = count_url_lines (map fst ls ++ [final]).
Proof.
  intros Hls Hfinal.
  assert (H : extractUrlsFromConfig (text_of ls final)
              = spec_extractUrls (map fst ls ++ [final])).
  { induction Hls as [|[line t] ls [Hline Ht] _ IH].
    - cbn [text_of map app].
      rewrite <- (app_nil_r final) at 1.
      rewrite (ExtractorLines.extractUrls_one_line final [] Hfinal I).
      change (extractUrlsFromConfig []) with (@nil jsstring).
      now rewrite app_nil_r.
    - cbn [text_of map app fst]. simpl in Hline, Ht.
      rewrite (ExtractorLines.extractUrls_one_line line (t :: text_of ls final) Hline Ht).
      rewrite IH. unfold spec_extractUrls. cbn [flat_map].
      now rewrite app_nil_r. }
  split; [|split].
  - now rewrite Extractor.extractUrlsRun_done, H.
  - exact H.
  - rewrite H. apply ExtractorLines.spec_extractUrls_length.
Qed.

Lemma extractUrls_plain_lines_witness :
  extractUrlsRun (text_of config_lines [])
  = Done [js "https://example.com/a.git"; js "https://example.com/a.git"] /\
  extractUrlsFromConfig (text_of config_lines [])
  = [js "https://example.com/a.git"; js "https://example.com/a.git"] /\
  length (extractUrlsFromConfig (text_of config_lines [])) = 2.
Proof.
  apply (extractUrls_plain_lines config_lines []).
  - repeat constructor.
  - reflexivity.
Defined.

(** C3 as stated fails: of the two lines [url = a] and [pushurl = b] only
    the first has the form [url = X], and two values are returned. *)
Lemma extractUrls_unrelated_line_counterexample :
  text_of [(js "url = a", nl)] (js "pushurl = b")
  = js ("url = a" ++ LF ++ "pushurl = b")%string /\
  count_url_lines [js "url = a"; js "pushurl = b"] = 1 /\
  spec_extractUrls [js "url = a"; js "pushurl = b"] = [js "a"] /\
  extractUrlsRun (text_of [(js "url = a", nl)] (js "pushurl = b"))
  = Done [js "a"; js "b"] /\
  extractUrlsFromConfig (text_of [(js "url = a", nl)] (js "pushurl = b"))
  <> spec_extractUrls [js "url = a"; js "pushurl = b"].
Proof. repeat split; try reflexivity. vm_compute. discriminate. Qed.

(** A match that stands anywhere in the text is found, or an earlier one. *)
Lemma exec_finds pre s m :
  matcher urlPattern s None k0 = Some m ->
  exists m', exec urlPattern (pre ++ s) = Some m'.
Proof.
  intros Hm. induction pre as [|c pre IH].
  - exists m. destruct s; cbn [app exec]; fold k0; now rewrite Hm.
  - cbn [app exec]. fold k0.
    destruct (matcher urlPattern (c :: pre ++ s) None k0) as [m1|]; eauto.
Qed.

Lemma extractUrls_nonempty s m :
  exec urlPattern s = Some m -> extractUrlsFromConfig s <> [].
Proof.
  intros H. destruct m as [rest caps].
  destruct (Regex.exec_progress s rest caps H) as [_ [m1 ->]].
  rewrite Extractor.extractUrls_unfold, H. discriminate.
Qed.

(** C9: the pattern matches inside a longer key.  The line
    [pushurl = https://x] is not of the form [url = X], and the loop
    returns its value; and whatever stands before it, a [url] followed by
    optional whitespace, [=], optional whitespace and a value makes the
    loop return a value. *)
Theorem extractUrls_matches_inside_key :
  (url_value (js "pushurl = https://x") = None /\
   extractUrlsRun (js "pushurl = https://x") = Done [js "https://x"] /\
   extractUrlsFromConfig (js "pushurl = https://x") = [js "https://x"]) /\
  (forall pre ws2 ws3 x X tail,
      forallb isSpace ws2 = true -> forallb isSpace ws3 = true ->
      isSpace x = false -> forallb anyChar (x :: X) = true ->
      line_end tail ->
      extractUrlsFromConfig
        (pre ++ js "url" ++ ws2 ++ equals_sign :: ws3 ++ (x :: X) ++ tail) <> []).
Proof.
  split.
  - repeat split; vm_compute; reflexivity.
  - intros pre ws2 ws3 x X tail H2 H3 Hx HX Hend.
    pose proof (ExtractorLines.matcher_url_line ws2 ws3 x X tail H2 H3 Hx HX Hend) as Hm.
    destruct (exec_finds pre _ _ Hm) as [m' Hexec].
    now apply (extractUrls_nonempty _ m').
Qed.

Lemma extractUrls_matches_inside_key_witness :
  extractUrlsFromConfig (js "pushurl = https://x") <> [].
Proof.
  apply (proj2 extractUrls_matches_inside_key
           (js "push") (js " ") (js " ") 104%N (js "ttps://x") []);
    reflexivity || exact I.
Defined.

(* ===================================================================== *)
(** ** SnapshotAggregator *)
(* ===================================================================== *)

(** [fetchRepositoryInfo], step by step: the first failing step decides
    the error, and only the last step shows a message. *)
Lemma fetchRepositoryInfo_steps (w : World) repoPath ui :
  fetchRepositoryInfo w repoPath ui
  = match locateRoot (fs w) repoPath with
    | Err e => (Err e, ui)
    | Ok None => (Err NoRepositoryFound, ui)
    | Ok (Some gitRoot) =>
        if truthy gitRoot then
          let git := simpleGit w gitRoot in
          match Git.revparse git [js "--abbrev-ref"; js "HEAD"] with
          | Err e => (Err e, ui)
          | Ok cb =>
          match Git.status git with
          | Err e => (Err e, ui)
          | Ok st =>
          match Git.log git [] with
          | Err e => (Err e, ui)
          | Ok lg =>
          match Git.diffSummary git with
          | Err e => (Err e, ui)
          | Ok df =>
          match tracking_log git st with
          | Err e => (Err e, ui)
          | Ok bd =>
          match buildTopology (fs w) gitRoot with
          | Err e => (Err e, ui)
          | Ok topo =>
              (Ok (assemble w gitRoot cb st lg df bd topo
                     (fst (config_step w gitRoot ui))),
               snd (config_step w gitRoot ui))
          end end end end end end
        else (Err NoRepositoryFound, ui)
    end.
Proof.
  unfold fetchRepositoryInfo, locateRoot, buildTopology, bind, await.
  destruct (findGitRootInSubdirectories repoPath (treeAt (fs w) repoPath))
    as [[gitRoot|]|e]; try reflexivity.
  destruct (truthy gitRoot); [|reflexivity]. cbn [negb].
  unfold tryCatch, bind, await, ret, assemble, remote_url, config_step,
    tracking_log, configFilePath, config_error_message, showErrorMessage.
  cbv zeta.
  destruct (Git.revparse (simpleGit w gitRoot) [js "--abbrev-ref"; js "HEAD"])
    as [cb|e]; [|now destruct (Git.listRemote _ _)].
  destruct (Git.status (simpleGit w gitRoot)) as [st|e];
    [|now destruct (Git.listRemote _ _)].
  destruct (Git.log (simpleGit w gitRoot) []) as [lg|e];
    [|now destruct (Git.listRemote _ _)].
  destruct (Git.diffSummary (simpleGit w gitRoot)) as [df|e];
    [|now destruct (Git.listRemote _ _)].
  destruct (Git.listRemote (simpleGit w gitRoot) [js "--get-url"]) as [r|er].
  - destruct (Git.tracking st) as [t|].
    + destruct (truthy t).
      * destruct (Git.log (simpleGit w gitRoot) [t]) as [l|e]; [|reflexivity].
        destruct (getDirectoryHierarchy _ _ _ _) as [topo|e]; [|reflexivity].
        now destruct (readFile w _).
      * destruct (getDirectoryHierarchy _ _ _ _) as [topo|e]; [|reflexivity].
        now destruct (readFile w _).
    + destruct (getDirectoryHierarchy _ _ _ _) as [topo|e]; [|reflexivity].
      now destruct (readFile w _).
  - destruct (Git.tracking st) as [t|].
    + destruct (truthy t).
      * destruct (Git.log (simpleGit w gitRoot) [t]) as [l|e]; [|reflexivity].
        destruct (getDirectoryHierarchy _ _ _ _) as [topo|e]; [|reflexivity].
        now destruct (readFile w _).
      * destruct (getDirectoryHierarchy _ _ _ _) as [topo|e]; [|reflexivity].
        now destruct (readFile w _).
    + destruct (getDirectoryHierarchy _ _ _ _) as [topo|e]; [|reflexivity].
      now destruct (readFile w _).
Qed.

(** C4, as the code has it: [fetchRepositoryInfo] returns a snapshot
    exactly when the root search finds a root, the four required backend
    calls and the topology build succeed, and the log of the tracking
    branch, when the status names one, is answered.  When the root search
    answers [null] the call fails with the NoRepositoryFound error; in
    every other case it fails too, and a failing call carries an error
    only: no snapshot, and no message shown. *)
Theorem fetchRepositoryInfo_succeeds_exactly (w : World) (repoPath : jsstring) (ui : UI) :
  is_ok (fst (fetchRepositoryInfo w repoPath ui)) = all_succeed w repoPath /\
  (locateRoot (fs w) repoPath = Ok None ->
   fetchRepositoryInfo w repoPath ui = (Err NoRepositoryFound, ui)) /\
  (all_succeed w repoPath = false ->
   exists e, fetchRepositoryInfo w repoPath ui = (Err e, ui)).
Proof.
  rewrite fetchRepositoryInfo_steps.
  unfold all_succeed, required_succeed, tracking_succeeds.
  destruct (locateRoot (fs w) repoPath) as [[gitRoot|]|e0]; cbv zeta.
  2,3: (split; [reflexivity|]; split; [try discriminate; reflexivity | eauto]).
  destruct (truthy gitRoot); cbn [andb].
  2: (split; [reflexivity|]; split; [discriminate | eauto]).
  destruct (Git.revparse _ _) as [cb|e]; cbn [is_ok andb].
  2: (split; [reflexivity|]; split; [discriminate | eauto]).
  destruct (Git.status _) as [st|e]; cbn [is_ok andb].
  2: (split; [reflexivity|]; split; [discriminate | eauto]).
  destruct (Git.log _ []) as [lg|e]; cbn [is_ok andb].
  2: (split; [reflexivity|]; split; [discriminate | eauto]).
  destruct (Git.diffSummary _) as [df|e]; cbn [is_ok andb].
  2: (split; [reflexivity|]; split; [discriminate | eauto]).
  destruct (tracking_log _ st) as [bd|e]; cbn [is_ok andb].
  2: (rewrite andb_false_r; split; [reflexivity|]; split; [discriminate | eauto]).
  destruct (buildTopology _ _) as [topo|e]; cbn [is_ok andb fst].
  2: (split; [reflexivity|]; split; [discriminate | eauto]).
  split; [reflexivity|]. split; discriminate.
Qed.

Lemma fetchRepositoryInfo_succeeds_exactly_witness :
  (is_ok (fst (fetchRepositoryInfo world_ok (js "/repo") [])) = true /\
   all_succeed world_ok (js "/repo") = true) /\
  fetchRepositoryInfo world_ok (js "/repo/src/app") [] = (Err NoRepositoryFound, []) /\
  exists e, fetchRepositoryInfo world_tracking_lost (js "/repo") [] = (Err e, []).
Proof.
  split; [|split].
  - split; [|reflexivity].
    now rewrite (proj1 (fetchRepositoryInfo_succeeds_exactly world_ok (js "/repo") [])).
  - apply (proj1 (proj2 (fetchRepositoryInfo_succeeds_exactly
                           world_ok (js "/repo/src/app") []))).
    reflexivity.
  - apply (proj2 (proj2 (fetchRepositoryInfo_succeeds_exactly
                           world_tracking_lost (js "/repo") []))).
    reflexivity.
Defined.

(** C4 as stated fails: the root is found, the four required calls and
    the topology build succeed, and the call fails all the same, on the
    log of the tracking branch. *)
Lemma fetchRepositoryInfo_required_only_counterexample :
  required_succeed world_tracking_lost (js "/repo") = true /\
  fetchRepositoryInfo world_tracking_lost (js "/repo") []
  = (Err (JsError (js "fatal: bad revision 'origin/main'")), []) /\
  is_ok (fst (fetchRepositoryInfo world_tracking_lost (js "/repo") []))
  <> required_succeed world_tracking_lost (js "/repo").
Proof. repeat split; try reflexivity. vm_compute. discriminate. Qed.

(** What a successful call returns. *)
Lemma fetchRepositoryInfo_returns (w : World) (repoPath gitRoot : jsstring) (ui : UI) :
  all_succeed w repoPath = true ->
  locateRoot (fs w) repoPath = Ok (Some gitRoot) ->
  exists cb st lg df bd topo,
    Git.status (simpleGit w gitRoot) = Ok st /\
    tracking_log (simpleGit w gitRoot) st = Ok bd /\
    fetchRepositoryInfo w repoPath ui
    = (Ok (assemble w gitRoot cb st lg df bd topo (fst (config_step w gitRoot ui))),
       snd (config_step w gitRoot ui)).
Proof.
  intros Hall Hroot. rewrite fetchRepositoryInfo_steps.
  unfold all_succeed, required_succeed, tracking_succeeds in Hall.
  rewrite Hroot in *. cbv zeta in *.
  apply andb_true_iff in Hall as [Hreq Htrack].
  repeat (apply andb_true_iff in Hreq as [Hreq ?]).
  rewrite Hreq.
  destruct (Git.revparse _ _) as [cb|]; [|discriminate].
  destruct (Git.status _) as [st|]; [|discriminate].
  destruct (Git.log _ []) as [lg|]; [|discriminate].
  destruct (Git.diffSummary _) as [df|]; [|discriminate].
  destruct (tracking_log _ st) as [bd|] eqn:Hbd; [|discriminate].
  destruct (buildTopology _ _) as [topo|]; [|discriminate].
  exists cb, st, lg, df, bd, topo. auto.
Qed.

(** C5: when every required step succeeds and reading the configuration
    file fails, the call returns a snapshot whose [configUrls] is empty,
    and the error is shown as a message instead of being thrown. *)
Theorem fetchRepositoryInfo_config_unreadable
  (w : World) (repoPath gitRoot : jsstring) (ui : UI) (e : js_error) :
  all_succeed w repoPath = true ->
  locateRoot (fs w) repoPath = Ok (Some gitRoot) ->
  readFile w (Path.join [gitRoot; js ".git"; js "config"]) = Err e ->
  exists info,
    fetchRepositoryInfo w repoPath ui
    = (Ok info, ui ++ [js "Error reading config file: " ++ error_toString e]) /\
    configUrls info = [].
Proof.
  intros Hall Hroot Hread.
  destruct (fetchRepositoryInfo_returns w repoPath gitRoot ui Hall Hroot)
    as (cb & st & lg & df & bd & topo & _ & _ & Hfetch).
  unfold config_step, configFilePath in Hfetch. rewrite Hread in Hfetch.
  eexists. split; [exact Hfetch | reflexivity].
Qed.

Lemma fetchRepositoryInfo_config_unreadable_witness :
  exists info,
    fetchRepositoryInfo world_no_config (js "/repo") []
    = (Ok info,
       [] ++ [js "Error reading config file: " ++ error_toString ENOENT]) /\
    configUrls info = [].
Proof.
  apply (fetchRepositoryInfo_config_unreadable
           world_no_config (js "/repo") (js "/repo") [] ENOENT);
    reflexivity.
Defined.

(** C6: when the remote-URL query fails, or answers the empty string, the
    call still returns a snapshot, and its [url] is the empty string. *)
Theorem fetchRepositoryInfo_remote_unavailable
  (w : World) (repoPath gitRoot : jsstring) (ui : UI) :
  all_succeed w repoPath = true ->
  locateRoot (fs w) repoPath = Ok (Some gitRoot) ->
  is_ok (Git.listRemote (simpleGit w gitRoot) [js "--get-url"]) = false \/
  Git.listRemote (simpleGit w gitRoot) [js "--get-url"] = Ok [] ->
  exists info ui',
    fetchRepositoryInfo w repoPath ui = (Ok info, ui') /\ url info = [].
Proof.
  intros Hall Hroot Hremote.
  destruct (fetchRepositoryInfo_returns w repoPath gitRoot ui Hall Hroot)
    as (cb & st & lg & df & bd & topo & _ & _ & Hfetch).
  eexists. eexists. split; [exact Hfetch|].
  cbn [url assemble]. unfold remote_url.
  destruct Hremote as [Hfail | Hempty].
  - now destruct (Git.listRemote _ _).
  - now rewrite Hempty.
Qed.

Lemma fetchRepositoryInfo_remote_unavailable_witness :
  exists info ui',
    fetchRepositoryInfo world_no_config (js "/repo") [] = (Ok info, ui') /\
    url info = [].
Proof.
  apply (fetchRepositoryInfo_remote_unavailable
           world_no_config (js "/repo") (js "/repo") []);
    [reflexivity | reflexivity | left; reflexivity].
Defined.

(** C8: with the required steps successful, a status without tracking
    branch gives a snapshot whose [branchDetails] is empty; a status with
    a tracking branch whose log is answered gives a snapshot whose
    [branchDetails] holds that log. *)
Theorem fetchRepositoryInfo_tracking
  (w : World) (repoPath gitRoot : jsstring) (st : Git.StatusResult) (ui : UI) :
  required_succeed w repoPath = true ->
  locateRoot (fs w) repoPath = Ok (Some gitRoot) ->
  Git.status (simpleGit w gitRoot) = Ok st ->
  (truthy_opt (Git.tracking st) = false ->
   exists info ui',
     fetchRepositoryInfo w repoPath ui = (Ok info, ui') /\
     branchDetails info = []) /\
  (forall t lg,
      Git.tracking st = Some t -> truthy t = true ->
      Git.log (simpleGit w gitRoot) [t] = Ok lg ->
      exists info ui',
        fetchRepositoryInfo w repoPath ui = (Ok info, ui') /\
        branchDetails info = [lg]).
Proof.
  intros Hreq Hroot Hst.
  assert (Hbd : forall bd, tracking_log (simpleGit w gitRoot) st = Ok bd ->
                           exists info ui',
                             fetchRepositoryInfo w repoPath ui = (Ok info, ui') /\
                             branchDetails info = bd).
  { intros bd Hbd.
    assert (Hall : all_succeed w repoPath = true).
    { unfold all_succeed, tracking_succeeds. rewrite Hreq, Hroot. cbv zeta.
      now rewrite Hst, Hbd. }
    destruct (fetchRepositoryInfo_returns w repoPath gitRoot ui Hall Hroot)
      as (cb & st' & lg & df & bd' & topo & Hst' & Hbd' & Hfetch).
    rewrite Hst in Hst'. injection Hst' as <-.
    rewrite Hbd in Hbd'. injection Hbd' as <-.
    eexists. eexists. split; [exact Hfetch | reflexivity]. }
  split.
  - intros Hnone. apply Hbd. unfold tracking_log.
    destruct (Git.tracking st) as [t|]; [|reflexivity].
    simpl in Hnone. now rewrite Hnone.
  - intros t lg Ht Htruthy Hlog. apply Hbd. unfold tracking_log.
    now rewrite Ht, Htruthy, Hlog.
Qed.

Lemma fetchRepositoryInfo_tracking_witness :
  (exists info ui',
      fetchRepositoryInfo world_ok (js "/repo") [] = (Ok info, ui') /\
      branchDetails info = []) /\
  (exists info ui',
      fetchRepositoryInfo world_no_config (js "/repo") [] = (Ok info, ui') /\
      branchDetails info = [log1]).
Proof.
  split.
  - apply (proj1 (fetchRepositoryInfo_tracking world_ok (js "/repo") (js "/repo")
                    (status0 None) [] eq_refl eq_refl eq_refl)).
    reflexivity.
  - apply (proj2 (fetchRepositoryInfo_tracking world_no_config (js "/repo") (js "/repo")
                    (status0 (Some (js "origin/main"))) [] eq_refl eq_refl eq_refl)
             (js "origin/main") log1); reflexivity.
Defined.

(* ===================================================================== *)
(** ** RootLocator: further properties *)
(* ===================================================================== *)

Lemma join_truthy args : truthy (Path.join args) = true.
Proof.
  unfold Path.join. destruct (filter truthy args) as [|a parts]; [reflexivity|].
  unfold Path.normalize.
  destruct (Path.join_slash (a :: parts)) as [|c path0]; [reflexivity|].
  cbv zeta.
  destruct (Path.normalizeString (c :: path0) (negb (Path.isAbsolute (c :: path0))))
    as [|c' p'].
  - destruct (Path.isAbsolute (c :: path0)); [reflexivity|].
    now destruct (N.eqb (last (c :: path0) 0%N) Path.slash).
  - destruct (Path.isAbsolute (c :: path0)); [reflexivity|].
    now destruct (N.eqb (last (c :: path0) 0%N) Path.slash).
Qed.

Lemma descends_truthy p d r :
  descends p d r -> truthy p = true -> truthy r = true.
Proof.
  induction 1 as [p d | p items n sub r _ _ IH]; intros Hp; [exact Hp|].
  apply IH, join_truthy.
Qed.

Lemma findGitRoot_truthy p d r :
  truthy p = true ->
  findGitRootInSubdirectories p d = Ok (Some r) -> truthy r = true.
Proof.
  intros Hp H. apply findGitRoot_descends in H.
  now apply (descends_truthy p d r).
Qed.

(** The search reports the first event of the visit. *)
Lemma findGitRoot_first_event d :
  forall p, truthy p = true ->
            findGitRootInSubdirectories p d = first_event (events p d).
Proof.
  induction d as [e | items IH] using Dir_induction; intros p Hp.
  - reflexivity.
  - rewrite findGitRoot_Listing. cbn [events].
    induction IH as [|item items Hitem _ IHitems]; [reflexivity|].
    destruct item as [n | n sub]; cbn [flat_map].
    + rewrite findGitRootItems_file. exact IHitems.
    + rewrite findGitRootItems_dir.
      destruct (str_eqb n marker); [reflexivity|].
      pose proof (findGitRoot_truthy (Path.join [p; n]) sub) as Htruthy.
      rewrite (Hitem _ (join_truthy [p; n])) in *.
      destruct (events (Path.join [p; n]) sub) as [|[r|e] evs]; cbn [first_event app].
      * exact IHitems.
      * simpl. now rewrite (Htruthy r (join_truthy [p; n]) eq_refl).
      * reflexivity.
Qed.

Lemma findGitRoot_readable_ok d :
  forall p, readable d = true ->
            exists o, findGitRootInSubdirectories p d = Ok o.
Proof.
  induction d as [e | items IH] using Dir_induction; intros p Hr.
  - discriminate.
  - rewrite findGitRoot_Listing. simpl in Hr.
    induction IH as [|item items Hitem _ IHitems]; [now exists None|].
    simpl in Hr. apply andb_true_iff in Hr as [Hr1 Hr2].
    destruct item as [n | n sub].
    + rewrite findGitRootItems_file. now apply IHitems.
    + rewrite findGitRootItems_dir.
      destruct (str_eqb n marker); [now exists (Some p)|].
      destruct (Hitem (Path.join [p; n]) Hr1) as [o ->].
      destruct (truthy_opt o); [now exists o | now apply IHitems].
Qed.

Lemma findGitRoot_none_marker_free d :
  forall p, truthy p = true -> readable d = true ->
            findGitRootInSubdirectories p d = Ok None -> marker_free d = true.
Proof.
  induction d as [e | items IH] using Dir_induction; intros p Hp Hr H.
  - reflexivity.
  - rewrite findGitRoot_Listing in H. simpl in Hr. cbn [marker_free].
    induction IH as [|item items Hitem _ IHitems]; [reflexivity|].
    simpl in Hr. apply andb_true_iff in Hr as [Hr1 Hr2].
    destruct item as [n | n sub]; cbn [forallb].
    + rewrite findGitRootItems_file in H. now apply IHitems.
    + rewrite findGitRootItems_dir in H.
      destruct (str_eqb n marker); [discriminate|]. cbn [negb andb].
      destruct (findGitRoot_readable_ok sub (Path.join [p; n]) Hr1) as [o Ho].
      rewrite Ho in H. destruct o as [r|].
      * cbn [truthy_opt] in H.
        rewrite (findGitRoot_truthy _ _ _ (join_truthy [p; n]) Ho) in H.
        discriminate.
      * simpl in H. rewrite (Hitem _ (join_truthy [p; n]) Hr1 Ho).
        now apply IHitems.
Qed.

(** X1: the search reports what it meets first in listing order, a
    directory that lists a marker or a directory that cannot be listed;
    when it meets neither, it answers [null]. *)
Theorem locateRoot_first_event (fs : FileSystem) (P : jsstring) :
  truthy P = true ->
  locateRoot fs P = first_event (events P (treeAt fs P)).
Proof. intros HP. unfold locateRoot. now apply findGitRoot_first_event. Qed.

Lemma locateRoot_first_event_witness :
  events (js "/w") (treeAt fs_nested (js "/w"))
  = [Ok (js "/w/.cache/dep"); Ok (js "/w")] /\
  locateRoot fs_nested (js "/w") = Ok (Some (js "/w/.cache/dep")).
Proof.
  split; [reflexivity|].
  apply (locateRoot_first_event fs_nested (js "/w")). reflexivity.
Defined.

(** X2: below a starting directory that can be read throughout, the
    search answers [null] exactly when no directory lists a marker. *)
Theorem locateRoot_null_iff_marker_free (fs : FileSystem) (P : jsstring) :
  truthy P = true ->
  readable (treeAt fs P) = true ->
  (locateRoot fs P = Ok None <-> marker_free (treeAt fs P) = true).
Proof.
  intros HP Hr. unfold locateRoot. split.
  - now apply findGitRoot_none_marker_free.
  - now apply findGitRoot_marker_free.
Qed.

Lemma locateRoot_null_iff_marker_free_witness :
  locateRoot fs_repo (js "/repo/src") = Ok None <->
  marker_free (treeAt fs_repo (js "/repo/src")) = true.
Proof.
  apply (locateRoot_null_iff_marker_free fs_repo (js "/repo/src")); reflexivity.
Defined.

Lemma has_marker_intro items n sub :
  In (EDir n sub) items -> str_eqb n marker = true -> has_marker items = true.
Proof.
  intros Hin Hn. unfold has_marker. apply existsb_exists.
  exists (EDir n sub). split; [exact Hin | exact Hn].
Qed.

(** A reported root is reached by descending, lists a marker, and the
    search started there reports it again. *)
Lemma findGitRoot_reaches d :
  forall p r,
    findGitRootInSubdirectories p d = Ok (Some r) ->
    exists items',
      reaches p d r (Listing items') /\ has_marker items' = true /\
      findGitRootInSubdirectories r (Listing items') = Ok (Some r).
Proof.
  induction d as [e | items IH] using Dir_induction; intros p r H.
  - discriminate.
  - enough (Hscan : forall scanned,
               (forall item, In item scanned -> In item items) ->
               findGitRootItems findGitRootInSubdirectories p scanned = Ok (Some r) ->
               (r = p /\ has_marker items = true) \/
               (exists n sub items',
                   In (EDir n sub) items /\
                   reaches (Path.join [p; n]) sub r (Listing items') /\
                   has_marker items' = true /\
                   findGitRootInSubdirectories r (Listing items') = Ok (Some r))).
    { destruct (Hscan items (fun _ Hin => Hin) H)
        as [[-> Hm] | (n & sub & items' & Hin & Hreach & Hm & Hfind)].
      - exists items. split; [constructor | now split].
      - exists items'. split; [|now split].
        now apply reaches_sub with (n := n) (sub := sub). }
    intros scanned.
    induction scanned as [|item scanned IHs]; intros Hincl Hs; [discriminate|].
    assert (Hin : In item items) by (apply Hincl; now left).
    assert (Hincl' : forall it, In it scanned -> In it items)
      by (intros it Hit; apply Hincl; now right).
    destruct item as [n | n sub].
    + rewrite findGitRootItems_file in Hs. now apply IHs.
    + rewrite findGitRootItems_dir in Hs.
      destruct (str_eqb n marker) eqn:Hn.
      * injection Hs as <-. left. split; [reflexivity|].
        now apply has_marker_intro with (n := n) (sub := sub).
      * destruct (findGitRootInSubdirectories (Path.join [p; n]) sub)
          as [[g|]|e] eqn:E; simpl in Hs.
        -- destruct (truthy g).
           ++ injection Hs as <-. right.
              rewrite Forall_forall in IH.
              destruct (IH _ Hin _ _ E) as (items' & Hreach & Hm & Hfind).
              now exists n, sub, items'.
           ++ now apply IHs.
        -- now apply IHs.
        -- discriminate.
Qed.

Lemma findEntry_unique items item :
  distinct (map entry_name items) = true ->
  In item items ->
  findEntry (entry_name item) items = Some item.
Proof.
  induction items as [|x items IH]; intros Hd Hin; [contradiction|].
  simpl in Hd. apply andb_true_iff in Hd as [Hx Hd].
  apply negb_true_iff in Hx. cbn [findEntry].
  destruct Hin as [-> | Hin].
  - now rewrite str_eqb_refl.
  - destruct (str_eqb (entry_name x) (entry_name item)) eqn:E.
    + exfalso. assert (Hex : existsb (str_eqb (entry_name x)) (map entry_name items) = true).
      { apply existsb_exists. exists (entry_name item). split; [|exact E].
        now apply in_map. }
      rewrite Hex in Hx. discriminate.
    + now apply IH.
Qed.

Lemma walk_app d a b : walk d (a ++ b) = walk (walk d a) b.
Proof.
  revert d. induction a as [|n a IH]; intros d; [reflexivity|].
  cbn [app walk]. destruct d as [items | e].
  - destruct (findEntry n items) as [[m | m sub]|].
    + now destruct b.
    + apply IH.
    + now destruct b.
  - now destruct b.
Qed.

Lemma treeAt_abs_path fs segs :
  Forall (fun n => valid_name n = true) segs ->
  treeAt fs (abs_path segs) = walk (fs_root fs) segs.
Proof.
  intros H. unfold treeAt.
  now rewrite PathFacts.resolve_abs_path, PathFacts.segmentsOf_abs_path.
Qed.

(** With valid and unique names, descending along listed subdirectories
    and walking the path from the start lead to the same directory. *)
Lemma reaches_walk p d r d' :
  reaches p d r d' ->
  forall segs,
    p = abs_path segs ->
    Forall (fun n => valid_name n = true) segs ->
    valid_dir d = true -> unique_names d = true ->
    exists ns,
      Forall (fun n => valid_name n = true) ns /\
      r = abs_path (segs ++ ns) /\ walk d ns = d'.
Proof.
  induction 1 as [p d | p items n sub r d' Hin _ IH]; intros segs -> Hsegs Hv Hu.
  - exists []. split; [constructor|]. split; [now rewrite app_nil_r | reflexivity].
  - simpl in Hv, Hu. apply andb_true_iff in Hu as [Hd Hu].
    rewrite forallb_forall in Hv, Hu.
    specialize (Hv _ Hin). specialize (Hu _ Hin). simpl in Hv, Hu.
    apply andb_true_iff in Hv as [Hn Hsub].
    destruct (IH (segs ++ [n])) as (ns & Hns & -> & Hwalk).
    + now apply PathFacts.join_abs_path.
    + apply Forall_app. split; [assumption | now constructor].
    + exact Hsub.
    + exact Hu.
    + exists (n :: ns). split; [now constructor|]. split; [now rewrite <- app_assoc|].
      cbn [walk].
      change n with (entry_name (EDir n sub)) at 1.
      now rewrite (findEntry_unique items (EDir n sub) Hd Hin).
Qed.

(** The directory found at a reported root, looked up by its path. *)
Lemma locateRoot_found fs segs r :
  Forall (fun n => valid_name n = true) segs ->
  valid_dir (treeAt fs (abs_path segs)) = true ->
  unique_names (treeAt fs (abs_path segs)) = true ->
  locateRoot fs (abs_path segs) = Ok (Some r) ->
  exists items',
    treeAt fs r = Listing items' /\ has_marker items' = true /\
    findGitRootInSubdirectories r (Listing items') = Ok (Some r).
Proof.
  intros Hsegs Hv Hu H. unfold locateRoot in H.
  destruct (findGitRoot_reaches _ _ _ H) as (items' & Hreach & Hm & Hfind).
  destruct (reaches_walk _ _ _ _ Hreach segs eq_refl Hsegs Hv Hu)
    as (ns & Hns & -> & Hwalk).
  exists items'. split; [|now split].
  rewrite treeAt_abs_path in * by (try apply Forall_app; auto).
  now rewrite walk_app.
Qed.

(** X3: in a file system with valid and unique names, searched from a
    resolved path, a reported root is a directory that lists a [.git]
    directory. *)
Theorem locateRoot_lists_marker (fs : FileSystem) (segs : list jsstring) (r : jsstring) :
  Forall (fun n => valid_name n = true) segs ->
  valid_dir (treeAt fs (abs_path segs)) = true ->
  unique_names (treeAt fs (abs_path segs)) = true ->
  locateRoot fs (abs_path segs) = Ok (Some r) ->
  marker_at fs r = true.
Proof.
  intros Hsegs Hv Hu H.
  destruct (locateRoot_found fs segs r Hsegs Hv Hu H) as (items' & Ht & Hm & _).
  unfold marker_at. now rewrite Ht.
Qed.

Lemma locateRoot_lists_marker_witness :
  marker_at fs_nested (js "/w/.cache/dep") = true.
Proof.
  apply (locateRoot_lists_marker fs_nested [js "w"] (js "/w/.cache/dep"));
    [repeat constructor | reflexivity | reflexivity | reflexivity].
Defined.

(** X4: under the same conditions, the search started at a reported root
    reports that root again. *)
Theorem locateRoot_idempotent (fs : FileSystem) (segs : list jsstring) (r : jsstring) :
  Forall (fun n => valid_name n = true) segs ->
  valid_dir (treeAt fs (abs_path segs)) = true ->
  unique_names (treeAt fs (abs_path segs)) = true ->
  locateRoot fs (abs_path segs) = Ok (Some r) ->
  locateRoot fs r = Ok (Some r).
Proof.
  intros Hsegs Hv Hu H.
  destruct (locateRoot_found fs segs r Hsegs Hv Hu H) as (items' & Ht & _ & Hfind).
  unfold locateRoot. now rewrite Ht.
Qed.

Lemma locateRoot_idempotent_witness :
  locateRoot fs_nested (js "/w/.cache/dep") = Ok (Some (js "/w/.cache/dep")).
Proof.
  apply (locateRoot_idempotent fs_nested [js "w"] (js "/w/.cache/dep"));
    [repeat constructor | reflexivity | reflexivity | reflexivity].
Defined.

(* ===================================================================== *)
(** ** TopologyBuilder: further properties *)
(* ===================================================================== *)

(** A directory that cannot be listed, at any depth, fails the build. *)
Lemma getDirectoryHierarchy_unreadable cwd basePath d :
  forall p, readable d = false ->
            exists e, getDirectoryHierarchy cwd p basePath d = Err e.
Proof.
  induction d as [e | items IH] using Dir_induction; intros p Hr.
  - now exists e.
  - simpl in Hr. cbn [getDirectoryHierarchy].
    enough (Hloop : forall acc,
               exists e,
                 getDirectoryHierarchyItems
                   (fun itemPath sub => getDirectoryHierarchy cwd itemPath basePath sub)
                   p items acc = Err e).
    { destruct (Hloop []) as [e ->]. now exists e. }
    induction IH as [|item items Hitem _ IHitems]; [discriminate|].
    intros acc. simpl in Hr. destruct item as [n | n sub].
    + cbn [getDirectoryHierarchyItems]. now apply IHitems.
    + cbn [getDirectoryHierarchyItems entry_name].
      destruct (readable sub) eqn:Hsub.
      * destruct (getDirectoryHierarchy_built cwd basePath sub (Path.join [p; n]) Hsub)
          as (t & -> & _).
        now apply IHitems.
      * destruct (Hitem (Path.join [p; n]) eq_refl) as [e ->]. now exists e.
Qed.

(** X5: the topology is built exactly when every directory below the
    root can be listed; one unreadable directory, at any depth, fails the
    whole build. *)
Theorem buildTopology_ok_iff_readable (fs : FileSystem) (root : jsstring) :
  is_ok (buildTopology fs root) = readable (treeAt fs root).
Proof.
  unfold buildTopology. destruct (readable (treeAt fs root)) eqn:Hr.
  - destruct (getDirectoryHierarchy_built (fs_cwd fs) root (treeAt fs root) root Hr)
      as (t & -> & _).
    reflexivity.
  - destruct (getDirectoryHierarchy_unreadable (fs_cwd fs) root (treeAt fs root) root Hr)
      as (e & ->).
    reflexivity.
Qed.

(* ===================================================================== *)
(** ** ConfigUrlExtractor: further properties *)
(* ===================================================================== *)

Module ExtractorMore.
Import Regex Extractor ExtractorLines.

(** What a successful repetition of a class consumed. *)
Lemma matcher_Star_split p s :
  forall caps k x,
    matcher (Star (Class p)) s caps k = Some x ->
    exists ws tail, s = ws ++ tail /\ forallb p ws = true /\ k tail caps = Some x.
Proof.
  induction s as [|c s IH]; intros caps k x H.
  - rewrite matcher_Star_nil in H. now exists [], [].
  - rewrite matcher_Star_cons in H. destruct (p c) eqn:Hc.
    + destruct (matcher (Star (Class p)) s caps k) as [y|] eqn:E.
      * injection H as ->. apply IH in E as (ws & tail & -> & Hws & Hk).
        exists (c :: ws), tail. simpl. now rewrite Hc, Hws.
      * now exists [], (c :: s).
    + now exists [], (c :: s).
Qed.

Lemma exec_cons c s :
  exec urlPattern (c :: s)
  = match matcher urlPattern (c :: s) None k0 with
    | Some m => Some m
    | None => exec urlPattern s
    end.
Proof. reflexivity. Qed.

Lemma matcher_Group r s caps k :
  matcher (Group r) s caps k
  = matcher r s caps (fun s1 _ => k s1 (Some (firstn (length s - length s1) s))).
Proof. reflexivity. Qed.

Lemma matcher_Class_cons p x s caps k :
  matcher (Class p) (x :: s) caps k = if p x then k s caps else None.
Proof. reflexivity. Qed.

(** What [urlPattern] captures: at least one code unit, none of them a
    line terminator. *)
Lemma matcher_urlPattern_capture s rest caps :
  matcher urlPattern s None k0 = Some (rest, caps) ->
  exists m1, caps = Some m1 /\ truthy m1 = true /\ forallb anyChar m1 = true.
Proof.
  rewrite matcher_urlPattern. intros H.
  destruct (stripPrefix (js "url") s) as [r|]; [|discriminate].
  unfold afterKey in H. rewrite matcher_Seq in H.
  apply matcher_Star_split in H as (ws2 & t2 & _ & _ & H).
  destruct t2 as [|c t2]; [discriminate|].
  rewrite matcher_Char_Seq in H. destruct (N.eqb c equals_sign); [|discriminate].
  unfold afterEq in H. rewrite matcher_Seq in H.
  apply matcher_Star_split in H as (ws3 & t3 & _ & _ & H).
  cbn [matcher Plus] in H.
  destruct t3 as [|x t3]; [discriminate|].
  destruct (anyChar x) eqn:Hx; [|discriminate].
  change (repeatMatcher (matcher (Class anyChar)) (length t3) t3)
    with (matcher (Star (Class anyChar)) t3) in H.
  apply matcher_Star_split in H as (X & tail & -> & HX & H).
  unfold k0 in H. injection H as <- <-.
  exists (x :: X). split; [|split].
  - f_equal. apply (firstn_length_app (x :: X) tail).
  - reflexivity.
  - simpl. now rewrite Hx, HX.
Qed.

Lemma exec_capture s : forall rest caps,
  exec urlPattern s = Some (rest, caps) ->
  exists m1, caps = Some m1 /\ truthy m1 = true /\ forallb anyChar m1 = true.
Proof.
  induction s as [|c s IH]; intros rest caps H.
  - simpl in H. discriminate.
  - cbn [exec] in H. fold k0 in H.
    destruct (matcher urlPattern (c :: s) None k0) as [[rest' caps']|] eqn:E.
    + injection H as -> ->. now apply matcher_urlPattern_capture in E.
    + now apply IH in H.
Qed.

(** *** Trimming *)

Lemma forallb_dropWhile p q s :
  forallb q s = true -> forallb q (dropWhile p s) = true.
Proof.
  induction s as [|c s IH]; intros H; [reflexivity|].
  simpl in *. apply andb_true_iff in H as [Hc Hs].
  destruct (p c); [now apply IH|]. simpl. now rewrite Hc, Hs.
Qed.

Lemma forallb_rev (q : code_unit -> bool) s :
  forallb q s = true -> forallb q (rev s) = true.
Proof.
  intros H. apply forallb_forall. intros x Hx.
  apply in_rev in Hx. rewrite forallb_forall in H. now apply H.
Qed.

Lemma forallb_trim q s : forallb q s = true -> forallb q (trim s) = true.
Proof.
  intros H. unfold trim, trimEnd, trimStart.
  now apply forallb_rev, forallb_dropWhile, forallb_rev, forallb_dropWhile.
Qed.

Lemma dropWhile_stops p s : stops p s -> dropWhile p s = s.
Proof. destruct s as [|c s]; simpl; [reflexivity|]. now intros ->. Qed.

Lemma stops_dropWhile p s : stops p (dropWhile p s).
Proof. now destruct (dropWhile_split p s) as (_ & _ & _ & H). Qed.

(** The first code unit of what is left after trimming the end is the
    first code unit of the string. *)
Lemma stops_trimEnd p a : stops p a -> stops p (rev (dropWhile p (rev a))).
Proof.
  intros Ha.
  destruct (dropWhile_split p (rev a)) as (ws & Hrev & _ & _).
  apply (f_equal (@rev _)) in Hrev. rewrite rev_involutive, rev_app_distr in Hrev.
  destruct (rev (dropWhile p (rev a))) as [|c b]; [exact I|].
  rewrite Hrev in Ha. exact Ha.
Qed.

(** Trimming twice is trimming once. *)
Lemma trim_trim s : trim (trim s) = trim s.
Proof.
  unfold trim, trimEnd, trimStart.
  rewrite (dropWhile_stops isSpace (rev (dropWhile isSpace (rev (dropWhile isSpace s))))).
  - rewrite rev_involutive.
    rewrite (dropWhile_stops isSpace (dropWhile isSpace (rev (dropWhile isSpace s))));
      [reflexivity | apply stops_dropWhile].
  - apply stops_trimEnd, stops_dropWhile.
Qed.

Lemma extractUrls_clean_upto n :
  forall s, length s <= n ->
            Forall (fun v => trim v = v /\ forallb anyChar v = true)
              (extractUrlsFromConfig s).
Proof.
  induction n as [|n IH]; intros s Hn; rewrite extractUrls_unfold.
  - destruct s; [constructor | simpl in Hn; lia].
  - destruct (exec urlPattern s) as [[rest caps]|] eqn:E; [|constructor].
    destruct (exec_progress s rest caps E) as [Hlt _].
    destruct (exec_capture s rest caps E) as (m1 & -> & _ & Hany).
    constructor.
    + split; [apply trim_trim | now apply forallb_trim].
    + apply IH. lia.
Qed.

(** No position of a text without [u] starts a match. *)
Lemma exec_no_u s :
  forallb (fun c => negb (N.eqb c 117%N)) s = true -> exec urlPattern s = None.
Proof.
  induction s as [|c s IH]; intros H; [reflexivity|].
  simpl in H. apply andb_true_iff in H as [Hc Hs]. apply negb_true_iff in Hc.
  rewrite exec_skip; [now apply IH|].
  now apply matcher_urlPattern_not_u.
Qed.

Lemma isSpace_no_u ws :
  forallb isSpace ws = true ->
  forallb (fun c => negb (N.eqb c 117%N)) ws = true.
Proof.
  intros H. apply forallb_forall. intros c Hc.
  rewrite forallb_forall in H. apply negb_true_iff.
  apply isSpace_not; [reflexivity | now apply H].
Qed.

(** After [=], on whitespace up to the end of the text: the repetition
    gives back code units until [.+] can take one that is no line
    terminator. *)
Lemma matcher_blank ws :
  forallb isSpace ws = true ->
  if existsb anyChar ws then
    exists c rest,
      matcher afterEq ws None k0 = Some (rest, Some [c]) /\
      isSpace c = true /\ forallb isSpace rest = true
  else matcher afterEq ws None k0 = None.
Proof.
  unfold afterEq. rewrite matcher_Seq.
  induction ws as [|c ws IH]; intros H.
  - reflexivity.
  - simpl in H. apply andb_true_iff in H as [Hc Hws]. specialize (IH Hws).
    rewrite matcher_Star_cons, Hc. cbn [existsb].
    destruct (existsb anyChar ws) eqn:Hex.
    + rewrite orb_true_r. destruct IH as (c' & rest & -> & Hc' & Hrest).
      now exists c', rest.
    + rewrite IH, orb_false_r.
      rewrite matcher_Group. unfold Plus. rewrite matcher_Seq, matcher_Class_cons.
      destruct (anyChar c) eqn:Hany; [|reflexivity].
      rewrite matcher_Star_stops.
      * exists c, ws. unfold k0.
        change (c :: ws) with ([c] ++ ws). rewrite (firstn_length_app [c] ws).
        auto.
      * destruct ws as [|d ws']; [exact I|]. simpl in Hex.
        now apply orb_false_iff in Hex as [Hd _].
Qed.

End ExtractorMore.

(** X6: a text in which no [url] is followed, after optional whitespace,
    by [=] or by the end of the text yields no value. *)
Theorem extractUrls_no_key (configContent : jsstring) :
  has_key configContent = false ->
  extractUrlsRun configContent = Done [].
Proof.
  intros H. rewrite Extractor.extractUrlsRun_done, Extractor.extractUrls_unfold.
  pose proof (ExtractorLines.exec_no_key_line configContent [] H I) as Hexec.
  rewrite app_nil_r in Hexec. now rewrite Hexec.
Qed.

Lemma extractUrls_no_key_witness :
  extractUrlsRun (js ("[remote]" ++ LF ++ "  fetch = +refs" ++ LF ++ "  urls: none")%string)
  = Done [].
Proof. apply extractUrls_no_key. reflexivity. Defined.

(** X7: whatever the text, every returned value is trimmed (trimming it
    again changes nothing) and holds no line terminator. *)
Theorem extractUrls_values_clean (configContent : jsstring) :
  Forall (fun v => trim v = v /\ forallb anyChar v = true)
    (extractUrlsFromConfig configContent).
Proof.
  apply (ExtractorMore.extractUrls_clean_upto (length configContent)). lia.
Qed.

(** X8: the whitespace around the key and the [=] may hold line
    terminators: after [url], whitespace, [=] and whitespace of any kind,
    the value is what stands up to the end of its line, trimmed, and the
    search goes on after that line. *)
Theorem extractUrls_value_after_whitespace
  (ws1 ws2 ws3 : jsstring) (x : code_unit) (X tail : jsstring) :
  forallb isSpace ws1 = true -> forallb isSpace ws2 = true ->
  forallb isSpace ws3 = true ->
  isSpace x = false -> forallb anyChar (x :: X) = true ->
  line_end tail ->
  extractUrlsFromConfig
    (ws1 ++ js "url" ++ ws2 ++ equals_sign :: ws3 ++ (x :: X) ++ tail)
  = trimEnd (x :: X) :: extractUrlsFromConfig (match tail with [] => [] | _ :: T => T end).
Proof.
  intros H1 H2 H3 Hx HX Hend.
  rewrite Extractor.extractUrls_unfold.
  rewrite ExtractorLines.exec_skip_spaces by exact H1.
  pose proof (ExtractorLines.matcher_url_line ws2 ws3 x X tail H2 H3 Hx HX Hend) as Hm.
  change (js "url") with [117%N; 114%N; 108%N] in *.
  cbn [app] in *. cbn [exec]. fold k0. rewrite Hm.
  f_equal.
  - unfold trim, trimStart. simpl. now rewrite Hx.
  - apply Extractor.extractUrls_exec_ext.
    rewrite (ExtractorLines.exec_line_end tail Hend). now destruct tail.
Qed.

Lemma extractUrls_value_after_whitespace_witness :
  extractUrlsFromConfig (js ("url =" ++ LF ++ "  next line  " ++ LF ++ "url=b")%string)
  = [js "next line"; js "b"].
Proof.
  apply (extractUrls_value_after_whitespace
           [] (js " ") (js (LF ++ "  ")%string) 110%N (js "ext line  ")
           (js (LF ++ "url=b")%string));
    reflexivity.
Defined.

(** X9: a key whose [=] is followed by whitespace only, up to the end of
    the text, yields the empty string when that whitespace holds a code
    unit other than a line terminator, and nothing otherwise. *)
Theorem extractUrls_blank_value (ws1 ws2 ws3 : jsstring) :
  forallb isSpace ws1 = true -> forallb isSpace ws2 = true ->
  forallb isSpace ws3 = true ->
  extractUrlsFromConfig (ws1 ++ js "url" ++ ws2 ++ equals_sign :: ws3)
  = if existsb anyChar ws3 then [[]] else [].
Proof.
  intros H1 H2 H3.
  rewrite Extractor.extractUrls_unfold.
  rewrite ExtractorLines.exec_skip_spaces by exact H1.
  assert (Hm : matcher urlPattern (js "url" ++ ws2 ++ equals_sign :: ws3) None k0
               = matcher afterEq ws3 None k0).
  { rewrite Regex.matcher_urlPattern, Regex.stripPrefix_app.
    unfold afterKey. rewrite ExtractorLines.matcher_Seq.
    destruct (matcher afterEq ws3 None k0) as [m|] eqn:E.
    - apply Extractor.matcher_Star_greedy; [exact H2 | reflexivity |].
      now rewrite Regex.matcher_Char_Seq, N.eqb_refl.
    - apply Extractor.matcher_Star_fail; [exact H2 | reflexivity |].
      intros pre suf Hsplit. destruct suf as [|w suf]; simpl app.
      + now rewrite Regex.matcher_Char_Seq, N.eqb_refl.
      + rewrite Regex.matcher_Char_Seq.
        replace (N.eqb w equals_sign) with false; [reflexivity|].
        symmetry. apply ExtractorLines.isSpace_not; [reflexivity|].
        rewrite Hsplit, forallb_app in H2. apply andb_true_iff in H2 as [_ Hsuf].
        simpl in Hsuf. now apply andb_true_iff in Hsuf as [Hw _]. }
  pose proof (ExtractorMore.matcher_blank ws3 H3) as Hblank.
  change (js "url") with [117%N; 114%N; 108%N] in *.
  cbn [app] in *. rewrite ExtractorMore.exec_cons, Hm.
  destruct (existsb anyChar ws3).
  - destruct Hblank as (c & rest & -> & Hc & Hrest).
    f_equal.
    + unfold trim, trimStart, trimEnd. simpl. now rewrite Hc.
    + rewrite Extractor.extractUrls_unfold.
      now rewrite (ExtractorMore.exec_no_u rest (ExtractorMore.isSpace_no_u rest Hrest)).
  - rewrite Hblank.
    match goal with
    | |- context [exec urlPattern ?t] => assert (Hnone : exec urlPattern t = None)
    end.
    { apply ExtractorMore.exec_no_u. apply forallb_forall. intros c Hc.
      apply negb_true_iff.
      destruct Hc as [<- | [<- | Hc]]; try reflexivity.
      rewrite forallb_forall in H2, H3.
      apply in_app_or in Hc as [Hc | [<- | Hc]]; try reflexivity;
        (apply ExtractorLines.isSpace_not; [reflexivity | auto]). }
    now rewrite Hnone.
Qed.

Lemma extractUrls_blank_value_witness :
  extractUrlsFromConfig (js ("  url =  " ++ LF)%string) = [[]] /\
  extractUrlsFromConfig (js ("url=" ++ LF)%string) = [].
Proof.
  split.
  - apply (extractUrls_blank_value (js "  ") (js " ") (js ("  " ++ LF)%string));
      reflexivity.
  - apply (extractUrls_blank_value [] [] (js LF)); reflexivity.
Defined.

(* ===================================================================== *)
(** ** SnapshotAggregator: further properties *)
(* ===================================================================== *)

(** What a returned snapshot tells about the steps. *)
Lemma fetchRepositoryInfo_ok_inv (w : World) (repoPath : jsstring) (ui ui' : UI)
  (info : RepositoryInfo) :
  fetchRepositoryInfo w repoPath ui = (Ok info, ui') ->
  exists gitRoot cb st lg df bd topo,
    locateRoot (fs w) repoPath = Ok (Some gitRoot) /\
    truthy gitRoot = true /\
    Git.revparse (simpleGit w gitRoot) [js "--abbrev-ref"; js "HEAD"] = Ok cb /\
    Git.status (simpleGit w gitRoot) = Ok st /\
    Git.log (simpleGit w gitRoot) [] = Ok lg /\
    Git.diffSummary (simpleGit w gitRoot) = Ok df /\
    tracking_log (simpleGit w gitRoot) st = Ok bd /\
    buildTopology (fs w) gitRoot = Ok topo /\
    info = assemble w gitRoot cb st lg df bd topo (fst (config_step w gitRoot ui)) /\
    ui' = snd (config_step w gitRoot ui).
Proof.
  rewrite fetchRepositoryInfo_steps.
  destruct (locateRoot (fs w) repoPath) as [[gitRoot|]|e0]; try discriminate.
  destruct (truthy gitRoot) eqn:Ht; [|discriminate]. cbv zeta.
  destruct (Git.revparse _ _) as [cb|] eqn:E1; [|discriminate].
  destruct (Git.status _) as [st|] eqn:E2; [|discriminate].
  destruct (Git.log _ []) as [lg|] eqn:E3; [|discriminate].
  destruct (Git.diffSummary _) as [df|] eqn:E4; [|discriminate].
  destruct (tracking_log _ st) as [bd|] eqn:E5; [|discriminate].
  destruct (buildTopology _ _) as [topo|] eqn:E6; [|discriminate].
  intros H. injection H as <- <-.
  exists gitRoot, cb, st, lg, df, bd, topo. repeat split; auto.
Qed.

(** A failing call has shown nothing. *)
Lemma fetchRepositoryInfo_err_silent (w : World) (repoPath : jsstring) (ui ui' : UI)
  (e : js_error) :
  fetchRepositoryInfo w repoPath ui = (Err e, ui') -> ui' = ui.
Proof.
  rewrite fetchRepositoryInfo_steps.
  destruct (locateRoot (fs w) repoPath) as [[gitRoot|]|e0];
    try (intros H; now injection H).
  destruct (truthy gitRoot); [|intros H; now injection H]. cbv zeta.
  destruct (Git.revparse _ _); [|intros H; now injection H].
  destruct (Git.status _) as [st|]; [|intros H; now injection H].
  destruct (Git.log _ []); [|intros H; now injection H].
  destruct (Git.diffSummary _); [|intros H; now injection H].
  destruct (tracking_log _ st); [|intros H; now injection H].
  destruct (buildTopology _ _); [discriminate | intros H; now injection H].
Qed.

(** X10: the caller sees the error of the first step that fails, in the
    order root search, current branch, status, commit log, diff summary,
    tracking-branch log, topology; nothing later is consulted and no
    message is shown. *)
Theorem fetchRepositoryInfo_first_error (w : World) (repoPath : jsstring) (ui : UI)
  (e : js_error) :
  (locateRoot (fs w) repoPath = Err e ->
   fetchRepositoryInfo w repoPath ui = (Err e, ui)) /\
  (forall gitRoot,
      locateRoot (fs w) repoPath = Ok (Some gitRoot) -> truthy gitRoot = true ->
      (Git.revparse (simpleGit w gitRoot) [js "--abbrev-ref"; js "HEAD"] = Err e ->
       fetchRepositoryInfo w repoPath ui = (Err e, ui)) /\
      (forall cb,
          Git.revparse (simpleGit w gitRoot) [js "--abbrev-ref"; js "HEAD"] = Ok cb ->
          (Git.status (simpleGit w gitRoot) = Err e ->
           fetchRepositoryInfo w repoPath ui = (Err e, ui)) /\
          (forall st,
              Git.status (simpleGit w gitRoot) = Ok st ->
              (Git.log (simpleGit w gitRoot) [] = Err e ->
               fetchRepositoryInfo w repoPath ui = (Err e, ui)) /\
              (forall lg,
                  Git.log (simpleGit w gitRoot) [] = Ok lg ->
                  (Git.diffSummary (simpleGit w gitRoot) = Err e ->
                   fetchRepositoryInfo w repoPath ui = (Err e, ui)) /\
                  (forall df,
                      Git.diffSummary (simpleGit w gitRoot) = Ok df ->
                      (tracking_log (simpleGit w gitRoot) st = Err e ->
                       fetchRepositoryInfo w repoPath ui = (Err e, ui)) /\
                      (forall bd,
                          tracking_log (simpleGit w gitRoot) st = Ok bd ->
                          buildTopology (fs w) gitRoot = Err e ->
                          fetchRepositoryInfo w repoPath ui = (Err e, ui))))))).
Proof.
  rewrite fetchRepositoryInfo_steps. split.
  - now intros ->.
  - intros gitRoot -> ->. cbv zeta. split; [now intros ->|].
    intros cb ->. split; [now intros ->|].
    intros st ->. split; [now intros ->|].
    intros lg ->. split; [now intros ->|].
    intros df ->. split; [now intros ->|].
    now intros bd -> ->.
Qed.

Lemma fetchRepositoryInfo_first_error_witness :
  fetchRepositoryInfo world_late (js "/w/vault") [] = (Err EACCES, []) /\
  fetchRepositoryInfo world_late (js "/w") [] = (Err EACCES, []).
Proof.
  split.
  - apply (proj1 (fetchRepositoryInfo_first_error world_late (js "/w/vault") [] EACCES)).
    reflexivity.
  - destruct (proj2 (fetchRepositoryInfo_first_error world_late (js "/w") [] EACCES)
                (js "/w") eq_refl eq_refl) as [_ H].
    destruct (H _ eq_refl) as [_ H1].
    destruct (H1 _ eq_refl) as [_ H2].
    destruct (H2 _ eq_refl) as [_ H3].
    destruct (H3 _ eq_refl) as [_ H4].
    apply (H4 _ eq_refl). reflexivity.
Defined.

(** X11: when every step succeeds and the configuration file is read,
    the snapshot holds the trimmed remote URL (empty for an empty
    answer), the last segment of the resolved root, the trimmed branch
    name, the status as answered, the commits of the log, the files of
    the diff summary, the topology, and the URLs of the configuration
    file [<root>/.git/config]; no message is shown. *)
Theorem fetchRepositoryInfo_fields (w : World) (repoPath gitRoot r cb : jsstring)
  (st : Git.StatusResult) (lg : Git.LogResult) (df : Git.DiffResult)
  (bd : list Git.LogResult) (topo : DirectoryInfo) (content : jsstring) (ui : UI) :
  locateRoot (fs w) repoPath = Ok (Some gitRoot) ->
  truthy gitRoot = true ->
  Git.listRemote (simpleGit w gitRoot) [js "--get-url"] = Ok r ->
  Git.revparse (simpleGit w gitRoot) [js "--abbrev-ref"; js "HEAD"] = Ok cb ->
  Git.status (simpleGit w gitRoot) = Ok st ->
  Git.log (simpleGit w gitRoot) [] = Ok lg ->
  Git.diffSummary (simpleGit w gitRoot) = Ok df ->
  tracking_log (simpleGit w gitRoot) st = Ok bd ->
  buildTopology (fs w) gitRoot = Ok topo ->
  readFile w (Path.join [gitRoot; js ".git"; js "config"]) = Ok content ->
  fetchRepositoryInfo w repoPath ui
  = (Ok {| url := if truthy r then trim r else [];
           mainFolderName :=
             last (Path.split_slash (Path.resolve (fs_cwd (fs w)) [gitRoot])) [];
           currentBranch := trim cb;
           status := st;
           commits := Git.all lg;
           commitDiffs := Git.files df;
           branchDetails := bd;
           directoryHierarchy := topo;
           configUrls := extractUrlsFromConfig content |}, ui).
Proof.
  intros Hroot Ht Hremote Hcb Hst Hlg Hdf Hbd Htopo Hread.
  rewrite fetchRepositoryInfo_steps, Hroot, Ht. cbv zeta.
  rewrite Hcb, Hst, Hlg, Hdf, Hbd, Htopo.
  unfold assemble, remote_url, config_step, configFilePath.
  now rewrite Hremote, Hread.
Qed.

Lemma fetchRepositoryInfo_fields_witness :
  exists topo,
    fetchRepositoryInfo world_ok (js "/repo") []
    = (Ok {| url := js "https://example.com/a.git";
             mainFolderName := js "repo";
             currentBranch := js "main";
             status := status0 None;
             commits := [commit0];
             commitDiffs := [Git.mkDiffResultFile (js "README.md") 1 0];
             branchDetails := [];
             directoryHierarchy := topo;
             configUrls := [js "https://example.com/a.git"] |}, []).
Proof.
  eexists.
  apply (fetchRepositoryInfo_fields world_ok (js "/repo") (js "/repo")
           (js ("https://example.com/a.git" ++ LF)%string) (js ("main" ++ LF)%string)
           (status0 None) log0 (Git.mkDiffResult [Git.mkDiffResultFile (js "README.md") 1 0] 1)
           [] _ config0 []);
    reflexivity.
Defined.

Lemma last_segment_abs_path segs n :
  Forall (fun m => valid_name m = true) (segs ++ [n]) ->
  last (Path.split_slash (abs_path (segs ++ [n]))) [] = n.
Proof.
  intros Hall. unfold abs_path. cbn [Path.split_slash]. rewrite N.eqb_refl.
  rewrite PathFacts.split_join_slash.
  - change ([] :: segs ++ [n]) with (([] :: segs) ++ [n]). apply last_last.
  - now apply PathFacts.Forall_valid_noSlash.
  - now destruct segs.
Qed.

(** X12: for a root found at a resolved path, the snapshot's
    [mainFolderName] is the last segment of that path. *)
Theorem fetchRepositoryInfo_mainFolderName (w : World) (repoPath : jsstring)
  (segs : list jsstring) (n : jsstring) (ui : UI) :
  all_succeed w repoPath = true ->
  locateRoot (fs w) repoPath = Ok (Some (abs_path (segs ++ [n]))) ->
  Forall (fun m => valid_name m = true) (segs ++ [n]) ->
  exists info ui',
    fetchRepositoryInfo w repoPath ui = (Ok info, ui') /\
    mainFolderName info = n.
Proof.
  intros Hall Hroot Hvalid.
  destruct (fetchRepositoryInfo_returns w repoPath _ ui Hall Hroot)
    as (cb & st & lg & df & bd & topo & _ & _ & Hfetch).
  eexists. eexists. split; [exact Hfetch|].
  cbn [mainFolderName assemble].
  rewrite PathFacts.resolve_abs_path by exact Hvalid.
  now apply last_segment_abs_path.
Qed.

Lemma fetchRepositoryInfo_mainFolderName_witness :
  exists info ui',
    fetchRepositoryInfo world_ok (js "/") [] = (Ok info, ui') /\
    mainFolderName info = js "repo".
Proof.
  apply (fetchRepositoryInfo_mainFolderName world_ok (js "/") [] (js "repo") []);
    [reflexivity | reflexivity | repeat constructor].
Defined.

(** X13: in a file system with valid and unique names, searched from a
    resolved path, the topology of a returned snapshot is rooted at the
    located root, labelled [.], and holds the root's [.git] directory. *)
Theorem fetchRepositoryInfo_topology_root (w : World) (segs : list jsstring)
  (ui ui' : UI) (info : RepositoryInfo) :
  Forall (fun n => valid_name n = true) segs ->
  valid_dir (treeAt (fs w) (abs_path segs)) = true ->
  unique_names (treeAt (fs w) (abs_path segs)) = true ->
  fetchRepositoryInfo w (abs_path segs) ui = (Ok info, ui') ->
  exists gitRoot,
    locateRoot (fs w) (abs_path segs) = Ok (Some gitRoot) /\
    path (directoryHierarchy info) = gitRoot /\
    name (directoryHierarchy info) = js "." /\
    In (Path.join [gitRoot; marker]) (map path (nodes (directoryHierarchy info))).
Proof.
  intros Hsegs Hv Hu Hfetch.
  destruct (fetchRepositoryInfo_ok_inv w _ ui ui' info Hfetch)
    as (gitRoot & cb & st & lg & df & bd & topo & Hroot & _ & _ & _ & _ & _ & _
        & Htopo & -> & _).
  exists gitRoot. split; [exact Hroot|]. cbn [directoryHierarchy assemble].
  destruct (locateRoot_found (fs w) segs gitRoot Hsegs Hv Hu Hroot)
    as (items' & Htree & Hm & _).
  unfold buildTopology in Htopo.
  destruct (readable (treeAt (fs w) gitRoot)) eqn:Hr.
  - destruct (getDirectoryHierarchy_built (fs_cwd (fs w)) gitRoot
                (treeAt (fs w) gitRoot) gitRoot Hr)
      as (t & Ht & Hpath & Hname & _ & Hpaths & _).
    rewrite Ht in Htopo. injection Htopo as <-.
    split; [exact Hpath|]. split.
    + rewrite Hname, PathFacts.relative_self. reflexivity.
    + rewrite Hpaths, Htree.
      destruct (has_marker_In items' Hm) as (sub & Hin).
      now apply dir_paths_child with (sub := sub).
  - destruct (getDirectoryHierarchy_unreadable (fs_cwd (fs w)) gitRoot
                (treeAt (fs w) gitRoot) gitRoot Hr) as (e & He).
    rewrite He in Htopo. discriminate.
Qed.

Lemma fetchRepositoryInfo_topology_root_witness :
  exists info,
    fetchRepositoryInfo world_ok (js "/") [] = (Ok info, []) /\
    path (directoryHierarchy info) = js "/repo" /\
    name (directoryHierarchy info) = js "." /\
    In (js "/repo/.git") (map path (nodes (directoryHierarchy info))).
Proof.
  eexists. split; [reflexivity|].
  destruct (fetchRepositoryInfo_topology_root world_ok [] [] [] _
              (Forall_nil _) eq_refl eq_refl eq_refl)
    as (gitRoot & Hroot & Hpath & Hname & Hin).
  injection Hroot as <-. repeat split; assumption.
Defined.

(** X14: the only message [fetchRepositoryInfo] ever shows is the error
    of reading the configuration file, and it shows it only together with
    a returned snapshot. *)
Theorem fetchRepositoryInfo_messages (w : World) (repoPath : jsstring) (ui : UI) :
  snd (fetchRepositoryInfo w repoPath ui) = ui \/
  exists gitRoot e info,
    locateRoot (fs w) repoPath = Ok (Some gitRoot) /\
    readFile w (Path.join [gitRoot; js ".git"; js "config"]) = Err e /\
    fetchRepositoryInfo w repoPath ui
    = (Ok info, ui ++ [js "Error reading config file: " ++ error_toString e]).
Proof.
  destruct (fetchRepositoryInfo w repoPath ui) as [[info|e] ui'] eqn:H.
  - destruct (fetchRepositoryInfo_ok_inv w _ ui ui' info H)
      as (gitRoot & cb & st & lg & df & bd & topo & Hroot & _ & _ & _ & _ & _ & _
          & _ & _ & ->).
    unfold config_step, configFilePath.
    destruct (readFile w (Path.join [gitRoot; js ".git"; js "config"])) as [c|e] eqn:Hread.
    + now left.
    + right. exists gitRoot, e, info. auto.
  - left. now apply fetchRepositoryInfo_err_silent in H.
Qed.

(* ===================================================================== *)
(** ** displayRepositoryInfo *)
(* ===================================================================== *)

(** The three ways [displayRepositoryInfo] ends. *)
Lemma displayRepositoryInfo_cases (w : World) (rootPath : option jsstring) (ui : UI) :
  displayRepositoryInfo w rootPath ui
  = match rootPath with
    | Some repoPath =>
        if truthy repoPath then
          match fetchRepositoryInfo w repoPath ui with
          | (Ok info, ui') => (Ok (Some info), ui')
          | (Err e, _) =>
              (Ok None,
               ui ++ [js "Error fetching repository info: " ++ error_message e])
          end
        else (Ok None, ui ++ [js "No workspace opened."])
    | None => (Ok None, ui ++ [js "No workspace opened."])
    end.
Proof.
  unfold displayRepositoryInfo. destruct rootPath as [repoPath|]; [|reflexivity].
  cbn [truthy_opt]. destruct (truthy repoPath); [|reflexivity].
  unfold tryCatch, bind, ret, showErrorMessage.
  destruct (fetchRepositoryInfo w repoPath ui) as [[info|e] ui'] eqn:H; [reflexivity|].
  now rewrite (fetchRepositoryInfo_err_silent w repoPath ui ui' e H).
Qed.

(** X15: [displayRepositoryInfo] never throws.  It returns the snapshot
    when a workspace is open and [fetchRepositoryInfo] succeeds; otherwise
    it returns [null] and shows exactly one message: that no workspace is
    open, or the message of the error [fetchRepositoryInfo] failed with. *)
Theorem displayRepositoryInfo_outcome (w : World) (rootPath : option jsstring) (ui : UI) :
  (truthy_opt rootPath = false ->
   displayRepositoryInfo w rootPath ui
   = (Ok None, ui ++ [js "No workspace opened."])) /\
  (forall repoPath info ui',
      rootPath = Some repoPath -> truthy repoPath = true ->
      fetchRepositoryInfo w repoPath ui = (Ok info, ui') ->
      displayRepositoryInfo w rootPath ui = (Ok (Some info), ui')) /\
  (forall repoPath e ui',
      rootPath = Some repoPath -> truthy repoPath = true ->
      fetchRepositoryInfo w repoPath ui = (Err e, ui') ->
      displayRepositoryInfo w rootPath ui
      = (Ok None, ui ++ [js "Error fetching repository info: " ++ error_message e])).
Proof.
  rewrite displayRepositoryInfo_cases. repeat split.
  - destruct rootPath as [p|]; [|reflexivity]. simpl. now intros ->.
  - intros repoPath info ui' -> -> H. now rewrite H.
  - intros repoPath e ui' -> -> H. now rewrite H.
Qed.

Lemma displayRepositoryInfo_outcome_witness :
  displayRepositoryInfo world_ok None [] = (Ok None, [] ++ [js "No workspace opened."]) /\
  (exists info, displayRepositoryInfo world_ok (Some (js "/repo")) [] = (Ok (Some info), [])) /\
  displayRepositoryInfo world_ok (Some (js "/repo/src/app")) []
  = (Ok None,
     [] ++ [js "Error fetching repository info: No Git repository found in the current project hierarchy."]).
Proof.
  split; [|split].
  - apply (proj1 (displayRepositoryInfo_outcome world_ok None [])). reflexivity.
  - eexists.
    apply (proj1 (proj2 (displayRepositoryInfo_outcome world_ok (Some (js "/repo")) []))
             (js "/repo") _ [] eq_refl eq_refl).
    reflexivity.
  - apply (proj2 (proj2 (displayRepositoryInfo_outcome
                           world_ok (Some (js "/repo/src/app")) []))
             (js "/repo/src/app") NoRepositoryFound [] eq_refl eq_refl).
    reflexivity.
Defined.

(** X16: whatever the workspace and the world, [displayRepositoryInfo]
    ends without error, and a [null] result comes with exactly one new
    message. *)
Theorem displayRepositoryInfo_never_throws (w : World) (rootPath : option jsstring)
  (ui : UI) :
  exists o ui',
    displayRepositoryInfo w rootPath ui = (Ok o, ui') /\
    (o = None -> exists msg, ui' = ui ++ [msg]).
Proof.
  rewrite displayRepositoryInfo_cases.
  destruct rootPath as [repoPath|]; [|eauto].
  destruct (truthy repoPath); [|eauto].
  destruct (fetchRepositoryInfo w repoPath ui) as [[info|e] ui']; [|eauto].
  exists (Some info), ui'. split; [reflexivity | discriminate].
Qed.

(* ===================================================================== *)
(** ** TopologyBuilder: the children of a node *)
(* ===================================================================== *)

Lemma getDirectoryHierarchy_path cwd basePath p d t :
  getDirectoryHierarchy cwd p basePath d = Ok t -> path t = p.
Proof.
  destruct d as [items | e]; cbn [getDirectoryHierarchy]; [|discriminate].
  destruct (getDirectoryHierarchyItems _ p items []); [|discriminate].
  now intros [= <-].
Qed.

Lemma hierarchyItems_paths cwd basePath p items :
  forall acc subs,
    getDirectoryHierarchyItems
      (fun itemPath sub => getDirectoryHierarchy cwd itemPath basePath sub) p items acc
    = Ok subs ->
    map path subs
    = map path acc
      ++ map (fun item => Path.join [p; entry_name item]) (filter isDirectory items).
Proof.
  induction items as [|item items IH]; intros acc subs H.
  - cbn in H. injection H as <-. now rewrite app_nil_r.
  - destruct item as [n | n sub]; cbn [getDirectoryHierarchyItems entry_name] in H.
    + now apply IH.
    + destruct (getDirectoryHierarchy cwd (Path.join [p; n]) basePath sub)
        as [t|e] eqn:E; [|discriminate].
      apply IH in H. rewrite H, map_app. cbn [map filter isDirectory entry_name].
      rewrite (getDirectoryHierarchy_path _ _ _ _ _ E).
      now rewrite <- app_assoc.
Qed.

(** X17: the children of the root node are the listed directories, in
    listing order, each at [join(root, name)]; entries that are no
    directories leave no trace. *)
Theorem buildTopology_children (fs : FileSystem) (root : jsstring)
  (items : list Entry) (t : DirectoryInfo) :
  treeAt fs root = Listing items ->
  buildTopology fs root = Ok t ->
  map path (subdirectories t)
  = map (fun item => Path.join [root; entry_name item]) (filter isDirectory items).
Proof.
  unfold buildTopology. intros -> H. cbn [getDirectoryHierarchy] in H.
  destruct (getDirectoryHierarchyItems _ root items []) as [subs|e] eqn:E;
    [|discriminate].
  injection H as <-. cbn [subdirectories].
  now rewrite (hierarchyItems_paths _ _ _ _ _ _ E).
Qed.

Lemma buildTopology_children_witness :
  exists t,
    buildTopology fs_repo (js "/repo") = Ok t /\
    map path (subdirectories t) = [js "/repo/.git"; js "/repo/src"].
Proof.
  eexists. split; [reflexivity|].
  apply (buildTopology_children fs_repo (js "/repo")
           [dir ".git" [file "config"; dir "objects" []];
            file "README.md";
            dir "src" [dir "app" [file "main.ts"]]]);
    reflexivity.
Defined.
